(** * SmartRate estimator: catalog, tender matching and export

    A shallow embedding of the rate catalog (SOR items), the tender matching
    pass, the accept action, the backup restore handler and the CSV export of
    the SmartRate estimator, together with the properties its specification
    states about them.

    Sources embedded here:
    - [src/services/geminiservice.ts]       (module [GeminiService])
    - [src/components/TenderProcessor.tsx]  (module [TenderProcessor])
    - the single-file application           (modules [AppService] and [App])
    - the rate list component               (module [RateList]) *)

From Stdlib Require Import List String Ascii Bool Arith ZArith Lia.
From Stdlib Require Import QArith Lqa.
From Stdlib Require Import Permutation Sorted.
From Stdlib Require Import DecimalString.
Import ListNotations.

Local Open Scope list_scope.
Local Open Scope string_scope.

(** ** Numbers

    Rates, quantities and timestamps are JavaScript numbers.  The data model
    keeps them finite, and on finite doubles the tests the code performs (the
    sign of [a - b], [===], [Math.min], truthiness) agree with the rationals,
    so a finite number is a [Q].  The one operation of the code that can leave
    the finite numbers is the division, which is modelled with an explicit
    non-finite result. *)

Definition number := Q.

Inductive quotient : Type :=
| Finite (q : number)
| NonFinite.

(** [a / b] on finite numbers: [Infinity] or [NaN] when the divisor is zero. *)
Definition divide (a b : number) : quotient :=
  if Qeq_bool b 0 then NonFinite else Finite (a / b).

Definition times (a : quotient) (b : number) : quotient :=
  match a with
  | Finite q => Finite (q * b)
  | NonFinite => NonFinite
  end.

(** Truthiness of a finite number: everything but zero. *)
Definition truthy_number (n : number) : bool := negb (Qeq_bool n 0).

(** Truthiness of an optional number ([undefined] is falsy). *)
Definition truthy_opt (n : option number) : bool :=
  match n with
  | Some q => truthy_number q
  | None => false
  end.

(** ** Strings

    Strings are byte strings holding the UTF-8 form of the text.  The double
    quote and the separators of the CSV format are ASCII, and no byte of a
    multi-byte UTF-8 sequence is ASCII, so replacing and joining on bytes is
    replacing and joining on characters. *)

Definition dq_char : ascii := ascii_of_nat 34.
Definition dq : string := String dq_char EmptyString.
Definition CR : ascii := ascii_of_nat 13.
Definition LF : ascii := ascii_of_nat 10.
Definition CRLF : string := String CR (String LF EmptyString).

(** The UTF-8 encoding of U+FEFF. *)
Definition BOM : string :=
  String (ascii_of_nat 239) (String (ascii_of_nat 187) (String (ascii_of_nat 191) EmptyString)).

(** [s.replace(/c/g, by)] for a one-character pattern. *)
Fixpoint replace_char (c : ascii) (by_ : string) (s : string) : string :=
  match s with
  | EmptyString => EmptyString
  | String a rest =>
      if Ascii.eqb a c then by_ ++ replace_char c by_ rest
      else String a (replace_char c by_ rest)
  end.

(** What follows the prefix [p] in [s], when [s] begins with [p]. *)
Fixpoint strip_prefix (p s : string) : option string :=
  match p, s with
  | EmptyString, _ => Some s
  | String a p', String b s' => if Ascii.eqb a b then strip_prefix p' s' else None
  | String _ _, EmptyString => None
  end.

(** [parts.join(sep)] *)
Definition join (sep : string) (parts : list string) : string :=
  String.concat sep parts.

(** ** JSON values, as [JSON.parse] produces them *)

#[warnings="-register-all"]
Inductive Json : Type :=
| JNull
| JBool (b : bool)
| JNum (n : number)
| JStr (s : string)
| JArr (items : list Json)
| JObj (fields : list (string * Json)).

(** Truthiness of a JavaScript value. *)
Definition truthy (v : Json) : bool :=
  match v with
  | JNull => false
  | JBool b => b
  | JNum n => truthy_number n
  | JStr s => negb (String.eqb s "")
  | JArr _ => true
  | JObj _ => true
  end.

(** [Array.isArray(v)] *)
Definition Array_isArray (v : Json) : bool :=
  match v with
  | JArr _ => true
  | _ => false
  end.

Fixpoint assoc (k : string) (fields : list (string * Json)) : option Json :=
  match fields with
  | [] => None
  | (k', v) :: rest => if String.eqb k' k then Some v else assoc k rest
  end.

(** [id === v] for a string [id] and an arbitrary value [v]. *)
Definition strict_eq_string (id : string) (v : Json) : bool :=
  match v with
  | JStr s => String.eqb id s
  | _ => false
  end.

(** ** Data model *)

Record SORItem : Type := mkSOR {
  sor_id : string;
  sor_name : string;
  unit_ : string;
  rate : number;
  scopeOfWork : string;
  source : string;
  timestamp : number
}.

Inductive Status : Type := pending | matched | review | no_match.

Record TenderItem : Type := mkTender {
  id : string;
  name : string;
  quantity : number;
  requestedScope : string;
  estimatedRate : option number;
  matchedRate : option SORItem;
  status : Status
}.

(** A record of the array [parseBulkItems] resolves to, as the response
    schema of the request has it: a name and a requested scope, a quantity
    and possibly an estimated rate. *)
Record ParsedItem : Type := mkParsed {
  p_name : string;
  p_quantity : option number;
  p_requestedScope : string;
  p_estimatedRate : option number
}.

Definition Status_eqb (a b : Status) : bool :=
  match a, b with
  | pending, pending | matched, matched | review, review | no_match, no_match => true
  | _, _ => false
  end.

(** [{...i, status: st}] *)
Definition with_status (i : TenderItem) (st : Status) : TenderItem :=
  mkTender (id i) (name i) (quantity i) (requestedScope i) (estimatedRate i)
           (matchedRate i) st.

(** [{...i, status: st, matchedRate: m}] *)
Definition with_match (i : TenderItem) (st : Status) (m : SORItem) : TenderItem :=
  mkTender (id i) (name i) (quantity i) (requestedScope i) (estimatedRate i)
           (Some m) st.

(** ** Built-ins of the runtime

    The functions of the JavaScript runtime the code calls, whose definition
    is not part of the program.  Every property below holds for any runtime;
    [reference_runtime] is one, on ASCII text, used to run the model. *)

Class Runtime : Type := {
  toLowerCase : string -> string;
  toUpperCase : string -> string;
  trim : string -> string;
  (** [String(n)] *)
  String_number : number -> string;
  (** [n.toFixed(2)] *)
  toFixed2 : quotient -> string;
  (** [new Date(t).toLocaleDateString()] *)
  toLocaleDateString : number -> string;
  (** [JSON.parse(text)]; [None] is the [SyntaxError] *)
  JSON_parse : string -> option Json;
  (** the unchecked reading of a parsed array as [SORItem[]] *)
  as_SORItems : list Json -> list SORItem
}.

(** ** The world outside the program

    The answers of the remote model, the identifiers [crypto.randomUUID()]
    hands out and whether the client library accepts its configuration are
    not decided by the program. *)

(** What a [generateContent] request carries: the model and the values the
    prompt is assembled from. *)
Record Request : Type := mkRequest {
  req_model : string;
  req_targetItemName : string;
  req_targetScope : string;
  req_dbItems : list (string * string)
}.

(** The outcome of [await ai.models.generateContent(...)]: the promise
    rejects, or it resolves to a response whose [text] may be undefined. *)
Inductive GenerateOutcome : Type :=
| Rejects
| Responds (text : option string).

Class World : Type := {
  (** [new GoogleGenAI({ apiKey })] returns a client ([true]) or throws *)
  client_constructs : bool;
  (** the outcome of the [n]-th request issued *)
  generateContent_outcome : nat -> Request -> GenerateOutcome;
  (** the [n]-th identifier handed out *)
  randomUUID_value : nat -> string;
  (** what the user answers to a [confirm] dialog *)
  confirm_answer : string -> bool
}.

(** ** Effects: remote calls issued, identifiers drawn, dialogs, exceptions *)

Inductive Dialog : Type :=
| Alert (message : string)
| Confirm (message : string).

Record Trace : Type := mkTrace {
  remote_calls : list Request;
  uuids_drawn : nat;
  dialogs : list Dialog
}.

Inductive Exn : Type :=
| ClientError
| RemoteError
| SyntaxError
| TypeError.

Inductive Result (A : Type) : Type :=
| Return (a : A)
| Throw (e : Exn).
Arguments Return {A} a.
Arguments Throw {A} e.

Definition M (A : Type) : Type := Trace -> Result A * Trace.

Definition ret {A} (a : A) : M A := fun t => (Return a, t).

Definition throw {A} (e : Exn) : M A := fun t => (Throw e, t).

Definition bind {A B} (m : M A) (k : A -> M B) : M B :=
  fun t =>
    match m t with
    | (Return a, t') => k a t'
    | (Throw e, t') => (Throw e, t')
    end.

(** [try { body } catch (e) { handler }] *)
Definition try_catch {A} (body : M A) (handler : Exn -> M A) : M A :=
  fun t =>
    match body t with
    | (Return a, t') => (Return a, t')
    | (Throw e, t') => handler e t'
    end.

Declare Scope js_scope.
Delimit Scope js_scope with js.
Notation "x <- m ;; k" := (bind m (fun x => k))
  (at level 61, m at next level, right associativity) : js_scope.
Local Open Scope js_scope.

(** [for (const x of xs) { out.push(await f(x)) }] *)
Fixpoint for_push {A B} (f : A -> M B) (xs : list A) : M (list B) :=
  match xs with
  | [] => ret []
  | x :: rest =>
      y <- f x ;;
      ys <- for_push f rest ;;
      ret (y :: ys)
  end.

Section Effects.
Context {W : World} {R : Runtime}.

(** [crypto.randomUUID()] *)
Definition randomUUID : M string :=
  fun t => (Return (randomUUID_value (uuids_drawn t)),
            mkTrace (remote_calls t) (S (uuids_drawn t)) (dialogs t)).

(** [new GoogleGenAI({ apiKey: process.env.API_KEY })] *)
Definition new_GoogleGenAI : M unit :=
  if client_constructs then ret tt else throw ClientError.

(** [await ai.models.generateContent(request)] *)
Definition generateContent (req : Request) : M (option string) :=
  fun t =>
    let t' := mkTrace (remote_calls t ++ [req]) (uuids_drawn t) (dialogs t) in
    match generateContent_outcome (List.length (remote_calls t)) req with
    | Rejects => (Throw RemoteError, t')
    | Responds text => (Return text, t')
    end.

(** [alert(message)] *)
Definition alert (message : string) : M unit :=
  fun t => (Return tt,
            mkTrace (remote_calls t) (uuids_drawn t) (dialogs t ++ [Alert message])).

(** [confirm(message)] *)
Definition confirm (message : string) : M bool :=
  fun t => (Return (confirm_answer message),
            mkTrace (remote_calls t) (uuids_drawn t) (dialogs t ++ [Confirm message])).

(** [JSON.parse(text)] *)
Definition JSON_parse_js (text : string) : M Json :=
  match JSON_parse text with
  | Some v => ret v
  | None => throw SyntaxError
  end.

(** [text || fallback] *)
Definition text_or (text : option string) (fallback : string) : string :=
  match text with
  | Some s => if String.eqb s "" then fallback else s
  | None => fallback
  end.

(** [result.matchedId]: a [TypeError] on [null], [undefined] ([None]) where
    the value has no such property. *)
Definition get_matchedId (result : Json) : M (option Json) :=
  match result with
  | JNull => throw TypeError
  | JObj fields => ret (assoc "matchedId" fields)
  | _ => ret None
  end.

(** [v || null] *)
Definition or_null (v : option Json) : Json :=
  match v with
  | Some j => if truthy j then j else JNull
  | None => JNull
  end.
End Effects.

(** ** [src/services/geminiservice.ts]

    The [catch] handlers also write to the console, which is not part of the
    model. *)

Module GeminiService.
Section Service.
Context {W : World} {R : Runtime}.

Definition getClient : M unit := new_GoogleGenAI.

Definition findBestMatchingItem (targetItemName targetScope : string)
    (dbItems : list (string * string)) : M Json :=
  if (List.length dbItems =? 0)%nat then ret JNull else
  _ <- getClient ;;
  try_catch
    (response <- generateContent
                   (mkRequest "gemini-3-pro-preview" targetItemName targetScope dbItems) ;;
     result <- JSON_parse_js (text_or response "{}") ;;
     matchedId <- get_matchedId result ;;
     ret (or_null matchedId))
    (fun _ => ret JNull).
End Service.
End GeminiService.

(** ** The service object of the single-file application *)

Module AppService.
Section Service.
Context {W : World} {R : Runtime}.

(** The [client] getter. *)
Definition client : M unit := new_GoogleGenAI.

Definition findBestMatchingItem (targetItemName targetScope : string)
    (dbItems : list (string * string)) : M Json :=
  if (List.length dbItems =? 0)%nat then ret JNull else
  try_catch
    (_ <- client ;;
     response <- generateContent
                   (mkRequest "gemini-3-pro-preview" targetItemName targetScope dbItems) ;;
     result <- JSON_parse_js (text_or response "{}") ;;
     matchedId <- get_matchedId result ;;
     ret (or_null matchedId))
    (fun _ => ret JNull).
End Service.
End AppService.

(** ** Array built-ins *)

(** [xs.sort(compare)].  The sort of the language is stable, and for a
    comparator that orders its arguments consistently the result of a stable
    sort is determined; insertion from the right computes it. *)
Fixpoint sort_insert {A} (compare : A -> A -> number) (x : A) (sorted : list A) : list A :=
  match sorted with
  | [] => [x]
  | y :: rest =>
      if Qlt_le_dec 0 (compare x y)
      then y :: sort_insert compare x rest
      else x :: y :: rest
  end.

Fixpoint Array_sort {A} (compare : A -> A -> number) (xs : list A) : list A :=
  match xs with
  | [] => []
  | x :: rest => sort_insert compare x (Array_sort compare rest)
  end.

(** [Math.min(...ns)]; [None] stands for the [Infinity] of the empty call,
    which no finite number equals. *)
Fixpoint Math_min (ns : list number) : option number :=
  match ns with
  | [] => None
  | n :: rest =>
      match Math_min rest with
      | None => Some n
      | Some m => Some (if Qlt_le_dec m n then m else n)
      end
  end.

(** [n === Math.min(...)] *)
Definition strict_eq_min (n : number) (m : option number) : bool :=
  match m with
  | Some q => Qeq_bool n q
  | None => false
  end.

(** [n || fallback] on an optional number. *)
Definition number_or (n : option number) (fallback : number) : number :=
  match n with
  | Some q => if truthy_number q then q else fallback
  | None => fallback
  end.

(** [s || fallback] on an optional string. *)
Definition string_or (s : option string) (fallback : string) : string :=
  match s with
  | Some v => if String.eqb v "" then fallback else v
  | None => fallback
  end.

(** The string a status is at run time. *)
Definition Status_string (st : Status) : string :=
  match st with
  | pending => "pending"
  | matched => "matched"
  | review => "review"
  | no_match => "no-match"
  end.

(** ** CSV cells: the [any] values the export rows hold *)

Inductive Cell : Type :=
| CNull
| CStr (s : string)
| CNum (n : number).

(** [n || 'N/A'] *)
Definition number_or_NA (n : number) : Cell :=
  if truthy_number n then CNum n else CStr "N/A".

Section Cells.
Context {R : Runtime}.

(** [String(cell)], and the empty string for [null] and [undefined]. *)
Definition cell_text (cell : Cell) : string :=
  match cell with
  | CNull => ""
  | CStr s => s
  | CNum n => String_number n
  end.

(** The field for [val]: its double quotes replaced, globally, by two double
    quotes, and the result put between double quotes. *)
Definition quote_field (val : string) : string :=
  dq ++ replace_char dq_char (dq ++ dq) val ++ dq.
End Cells.

(** ** [src/components/TenderProcessor.tsx] *)

Module TenderProcessor.
Section Component.
Context {W : World} {R : Runtime}.

(** The pending item of a parsed record [p] under the identifier [uuid]:
    the quantity defaults to [1], no matched rate is set. *)
Definition initial_of (uuid : string) (p : ParsedItem) : TenderItem :=
  mkTender uuid (p_name p) (number_or (p_quantity p) 1)
           (p_requestedScope p) (p_estimatedRate p) None pending.

(** The element [parsed.map] builds for one record. *)
Definition initialTenderItem (p : ParsedItem) : M TenderItem :=
  uuid <- randomUUID ;;
  ret (initial_of uuid p).

(** The catalog entries whose name is [itemName], letter case apart. *)
Definition exactMatches (sorData : list SORItem) (itemName : string) : list SORItem :=
  filter (fun sor => String.eqb (toLowerCase (sor_name sor)) (toLowerCase itemName))
         sorData.

Definition isScopeIdentical (lowestExact : SORItem) (tenderItem : TenderItem) : bool :=
  String.eqb (trim (toLowerCase (scopeOfWork lowestExact)))
             (trim (toLowerCase (requestedScope tenderItem))).

(** The body of the matching loop: the item pushed for [tenderItem]. *)
Definition matchTenderItem (sorData : list SORItem) (tenderItem : TenderItem) : M TenderItem :=
  let exactMatches := exactMatches sorData (name tenderItem) in
  if (0 <? List.length exactMatches)%nat then
    match Array_sort (fun a b => rate a - rate b) exactMatches with
    | lowestExact :: _ =>
        ret (with_match tenderItem
               (if isScopeIdentical lowestExact tenderItem then matched else review)
               lowestExact)
    | [] => throw TypeError
    end
  else
    let dbItemSummary := map (fun d => (sor_id d, sor_name d)) sorData in
    matchedId <- GeminiService.findBestMatchingItem
                   (name tenderItem) (requestedScope tenderItem) dbItemSummary ;;
    if truthy matchedId then
      match find (fun d => strict_eq_string (sor_id d) matchedId) sorData with
      | Some bestMatch => ret (with_match tenderItem review bestMatch)
      | None => ret (with_status tenderItem no_match)
      end
    else ret (with_status tenderItem no_match).

(** [handleProcess] from the parsed records on: [parsed] is what
    [await parseBulkItems(inputText)] resolved to, the result is the list
    handed to [setItems]. *)
Definition handleProcess (sorData : list SORItem) (parsed : list ParsedItem)
    : M (list TenderItem) :=
  initialTenderItems <- for_push initialTenderItem parsed ;;
  for_push (matchTenderItem sorData) initialTenderItems.

Definition calculateDiff (est quoted : option number) : option quotient :=
  if negb (truthy_opt est) || negb (truthy_opt quoted) then None
  else
    match est, quoted with
    | Some est, Some quoted => Some (times (divide (quoted - est) est) 100)
    | _, _ => None
    end.

Definition export_headers : list string :=
  [ "Tender Item"; "Quantity"; "Requested Scope"; "Estimated Rate (₹)";
    "Quoted Rate (₹)"; "Unit"; "Percentage Diff (%)"; "Total Quoted (₹)";
    "Matched Database Item"; "Source"; "Status" ].

(** The row [handleExportExcel] builds for one item. *)
Definition export_row (i : TenderItem) : list Cell :=
  let quoted := number_or (option_map rate (matchedRate i)) 0 in
  let est := number_or (estimatedRate i) 0 in
  let diff := if truthy_number est
              then times (divide (quoted - est) est) 100
              else Finite 0 in
  [ CStr (name i);
    CNum (quantity i);
    CStr (requestedScope i);
    number_or_NA est;
    number_or_NA quoted;
    CStr (string_or (option_map unit_ (matchedRate i)) "N/A");
    CStr (if truthy_number est then toFixed2 diff ++ "%" else "N/A");
    CStr (toFixed2 (Finite (quantity i * quoted)));
    CStr (string_or (option_map sor_name (matchedRate i)) "N/A");
    CStr (string_or (option_map source (matchedRate i)) "");
    CStr (toUpperCase (Status_string (status i))) ].

Definition generateCSV (data : list (list Cell)) : string :=
  let content :=
    join CRLF (map (fun row => join "," (map (fun cell => quote_field (cell_text cell)) row))
                   data) in
  BOM ++ content.

(** The text [handleExportExcel] puts in the downloaded file. *)
Definition handleExportExcel (items : list TenderItem) : string :=
  generateCSV (map CStr export_headers :: map export_row items).

(** The update the accept button of the item [item_id] passes to [setItems]. *)
Definition acceptMatch (item_id : string) (prev : list TenderItem) : list TenderItem :=
  map (fun i => if String.eqb (id i) item_id then with_status i matched else i) prev.
End Component.
End TenderProcessor.

(** ** The single-file application *)

Module App.
Section Application.
Context {W : World} {R : Runtime}.

(** The text [generateCSV] puts in the downloaded file. *)
Definition generateCSV (headers : list string) (rows : list (list Cell)) : string :=
  let content :=
    join CRLF (join "," (map quote_field headers)
               :: map (fun row => join "," (map (fun cell => quote_field (cell_text cell)) row))
                      rows) in
  BOM ++ content.

Definition handleExportDatabase (sorData : list SORItem) : string :=
  let headers := [ "Item Name"; "Unit"; "Rate (₹)"; "Scope of Work";
                   "Source Reference"; "Date Added" ] in
  let rows := map (fun i => [ CStr (sor_name i); CStr (unit_ i); CNum (rate i);
                              CStr (scopeOfWork i); CStr (source i);
                              CStr (toLocaleDateString (timestamp i)) ])
                  sorData in
  generateCSV headers rows.

Definition handleExportTender (tenderItems : list TenderItem) : string :=
  let headers := [ "Tender Item"; "Quantity"; "Requested Scope"; "Estimated Rate (₹)";
                   "Quoted Rate (₹)"; "Unit"; "Total Quoted (₹)";
                   "Matched Database Item"; "Source"; "Status" ] in
  let rows := map (fun i =>
                [ CStr (name i);
                  CNum (quantity i);
                  CStr (requestedScope i);
                  number_or_NA (number_or (estimatedRate i) 0);
                  number_or_NA (number_or (option_map rate (matchedRate i)) 0);
                  CStr (string_or (option_map unit_ (matchedRate i)) "N/A");
                  CStr (toFixed2 (Finite (quantity i
                                          * number_or (option_map rate (matchedRate i)) 0)));
                  CStr (string_or (option_map sor_name (matchedRate i)) "N/A");
                  CStr (string_or (option_map source (matchedRate i)) "");
                  CStr (toUpperCase (Status_string (status i))) ])
                tenderItems in
  generateCSV headers rows.

(** [handleRestore] once the chosen file has been read: [file] is the text
    of the file, [None] when no file was chosen; the result is the catalog
    after the handler. *)
Definition handleRestore (file : option string) (sorData : list SORItem)
    : M (list SORItem) :=
  match file with
  | None => ret sorData
  | Some text =>
      try_catch
        (data <- JSON_parse_js text ;;
         match data with
         | JArr items =>
             ok <- confirm ("Restore "
                            ++ String_number (inject_Z (Z.of_nat (List.length items)))
                            ++ " items? This will replace your current database.") ;;
             if ok then ret (as_SORItems items) else ret sorData
         | _ => ret sorData
         end)
        (fun _ => _ <- alert "Invalid backup file." ;; ret sorData)
  end.

(** The item [handleProcessTender] pushes for one parsed record. *)
Definition processParsed (sorData : list SORItem) (p : ParsedItem) : M TenderItem :=
  matchedId <- AppService.findBestMatchingItem
                 (p_name p) (p_requestedScope p)
                 (map (fun d => (sor_id d, sor_name d)) sorData) ;;
  let match_ := find (fun d => strict_eq_string (sor_id d) matchedId) sorData in
  uuid <- randomUUID ;;
  ret (mkTender uuid (p_name p) (number_or (p_quantity p) 1)
                (p_requestedScope p) (p_estimatedRate p) match_
                (match match_ with Some _ => matched | None => no_match end)).

(** [handleProcessTender] from the parsed records on. *)
Definition handleProcessTender (sorData : list SORItem) (parsed : list ParsedItem)
    : M (list TenderItem) :=
  for_push (processParsed sorData) parsed.

(** [isLowest] of the rate list inside the application file. *)
Definition isLowest (allRates : list SORItem) (item : SORItem) : bool :=
  let sameItems :=
    filter (fun r => String.eqb (toLowerCase (sor_name r)) (toLowerCase (sor_name item)))
           allRates in
  (1 <? List.length sameItems)%nat
  && strict_eq_min (rate item) (Math_min (map rate sameItems)).
End Application.
End App.

(** ** The rate list component *)

Module RateList.
Section Component.
Context {R : Runtime}.

Definition sameItems (allRates : list SORItem) (item : SORItem) : list SORItem :=
  filter (fun r => String.eqb (toLowerCase (sor_name r)) (toLowerCase (sor_name item)))
         allRates.

Definition isLowest (allRates : list SORItem) (item : SORItem) : bool :=
  let sameItems := sameItems allRates item in
  if (List.length sameItems <=? 1)%nat then false
  else
    let lowestRate := Math_min (map rate sameItems) in
    strict_eq_min (rate item) lowestRate.
End Component.
End RateList.

(** ** A runtime and worlds to run the model on

    [reference_runtime] follows the built-ins on ASCII text and on the JSON
    texts the examples use; [scripted_world] answers the [n]-th remote request
    with the [n]-th outcome of a script. *)

Module Reference.

Definition lower_ascii (c : ascii) : ascii :=
  let n := nat_of_ascii c in
  if ((65 <=? n) && (n <=? 90))%nat then ascii_of_nat (n + 32) else c.

Definition upper_ascii (c : ascii) : ascii :=
  let n := nat_of_ascii c in
  if ((97 <=? n) && (n <=? 122))%nat then ascii_of_nat (n - 32) else c.

Fixpoint map_string (f : ascii -> ascii) (s : string) : string :=
  match s with
  | EmptyString => EmptyString
  | String c rest => String (f c) (map_string f rest)
  end.

Definition is_space (c : ascii) : bool :=
  let n := nat_of_ascii c in
  ((n =? 32) || (n =? 9) || (n =? 10) || (n =? 13))%nat.

Fixpoint trim_start (s : string) : string :=
  match s with
  | EmptyString => EmptyString
  | String c rest => if is_space c then trim_start rest else s
  end.

(** Drops the white space at the end: the string is empty exactly when all
    of it is white space. *)
Fixpoint trim_end (s : string) : string :=
  match s with
  | EmptyString => EmptyString
  | String c rest =>
      match trim_end rest with
      | EmptyString => if is_space c then EmptyString else String c EmptyString
      | kept => String c kept
      end
  end.

Definition decimal (z : Z) : string :=
  NilZero.string_of_uint (N.to_uint (Z.to_N z)).

(** Two decimals, rounding half away from zero. *)
Definition fixed2 (q : quotient) : string :=
  match q with
  | NonFinite => "NaN"
  | Finite q =>
      let hundredths := ((2 * Z.abs (Qnum q) * 100 + Zpos (Qden q))
                         / (2 * Zpos (Qden q)))%Z in
      let cents := (hundredths mod 100)%Z in
      (if (Qnum q <? 0)%Z && negb (hundredths =? 0)%Z then "-" else "")
      ++ decimal (hundredths / 100) ++ "."
      ++ (if (cents <? 10)%Z then "0" else "") ++ decimal cents
  end.

Definition number_text (q : number) : string :=
  let r := Qred q in
  if (Zpos (Qden r) =? 1)%Z
  then (if (Qnum r <? 0)%Z then "-" else "") ++ decimal (Z.abs (Qnum r))
  else fixed2 (Finite q).

(** The characters up to the next double quote, and what follows it. *)
Fixpoint until_quote (s : string) : option (string * string) :=
  match s with
  | EmptyString => None
  | String c rest =>
      if Ascii.eqb c dq_char then Some (EmptyString, rest)
      else match until_quote rest with
           | Some (word, after) => Some (String c word, after)
           | None => None
           end
  end.

(** Reads [null], the empty object, the empty array and an object with the
    one property [matchedId] holding a string or [null]; every other text
    is a syntax error for it. *)
Definition parse (text : string) : option Json :=
  if String.eqb text "null" then Some JNull
  else if String.eqb text "{}" then Some (JObj [])
  else if String.eqb text "[]" then Some (JArr [])
  else
    match strip_prefix ("{" ++ dq ++ "matchedId" ++ dq ++ ":") text with
    | None => None
    | Some value =>
        if String.eqb value "null}" then Some (JObj [("matchedId", JNull)])
        else
          match strip_prefix dq value with
          | None => None
          | Some body =>
              match until_quote body with
              | Some (word, "}") => Some (JObj [("matchedId", JStr word)])
              | _ => None
              end
          end
    end.

Definition field_string (k : string) (v : Json) : string :=
  match v with
  | JObj fields => match assoc k fields with Some (JStr s) => s | _ => "" end
  | _ => ""
  end.

Definition field_number (k : string) (v : Json) : number :=
  match v with
  | JObj fields => match assoc k fields with Some (JNum n) => n | _ => 0 end
  | _ => 0
  end.

Definition read_SORItem (v : Json) : SORItem :=
  mkSOR (field_string "id" v) (field_string "name" v) (field_string "unit" v)
        (field_number "rate" v) (field_string "scopeOfWork" v)
        (field_string "source" v) (field_number "timestamp" v).

#[export] Instance reference_runtime : Runtime := {|
  toLowerCase := map_string lower_ascii;
  toUpperCase := map_string upper_ascii;
  trim := fun s => trim_end (trim_start s);
  String_number := number_text;
  toFixed2 := fixed2;
  toLocaleDateString := number_text;
  JSON_parse := parse;
  as_SORItems := map read_SORItem
|}.

Definition scripted_world (client_ok : bool) (script : list GenerateOutcome)
    (answer : bool) : World := {|
  client_constructs := client_ok;
  generateContent_outcome := fun n _ => nth n script Rejects;
  randomUUID_value := fun n => "uuid-" ++ decimal (Z.of_nat n);
  confirm_answer := fun _ => answer
|}.

(** The response text of an object whose [matchedId] is [v]. *)
Definition matchedId_text (v : string) : string :=
  "{" ++ dq ++ "matchedId" ++ dq ++ ":" ++ dq ++ v ++ dq ++ "}".

Definition start : Trace := mkTrace [] 0 [].

(** A small catalog: two pumps at different rates, one cable. *)
Definition pump_dear : SORItem :=
  mkSOR "s1" "10HP Pump" "nos" 5000 "Supply and install" "PWD 2023" 1.
Definition pump_cheap : SORItem :=
  mkSOR "s2" "10hp pump" "nos" 4200 "Supply only" "CPWD" 2.
Definition cable : SORItem :=
  mkSOR "s3" "Copper Cable" "m" 120 "Laying of cable" "DSR" 3.
Definition catalog : list SORItem := [pump_dear; pump_cheap; cable].

End Reference.

(** ** Notions the properties are stated with *)

(** [r] is the least rate of the entries of [group]. *)
Definition group_minimum (group : list SORItem) (r : number) : Prop :=
  (exists e, In e group /\ rate e == r) /\ forall e, In e group -> r <= rate e.

(** [escaped] is [text] with every double quote written twice. *)
Inductive Doubled : string -> string -> Prop :=
| Doubled_nil : Doubled EmptyString EmptyString
| Doubled_quote text escaped :
    Doubled text escaped ->
    Doubled (String dq_char text) (String dq_char (String dq_char escaped))
| Doubled_other c text escaped :
    c <> dq_char ->
    Doubled text escaped ->
    Doubled (String c text) (String c escaped).

(** A reader of quoted CSV fields.  Past the opening quote, two double quotes
    stand for one and a single one closes the field; the result is the value
    and the text left after the closing quote. *)
Fixpoint read_quoted (s : string) : option (string * string) :=
  match s with
  | EmptyString => None
  | String c rest =>
      if Ascii.eqb c dq_char then
        match rest with
        | EmptyString => Some (EmptyString, EmptyString)
        | String c' rest' =>
            if Ascii.eqb c' dq_char then
              match read_quoted rest' with
              | Some (value, after) => Some (String dq_char value, after)
              | None => None
              end
            else Some (EmptyString, rest)
        end
      else
        match read_quoted rest with
        | Some (value, after) => Some (String c value, after)
        | None => None
        end
  end.

Definition read_field (s : string) : option (string * string) :=
  match s with
  | EmptyString => None
  | String c rest => if Ascii.eqb c dq_char then read_quoted rest else None
  end.

(** [s] does not begin with a double quote. *)
Definition no_leading_quote (s : string) : bool :=
  match s with
  | EmptyString => true
  | String c _ => negb (Ascii.eqb c dq_char)
  end.

(** The text left after a row: nothing, or a line break and more. *)
Definition row_end (after : string) : bool :=
  match after with
  | EmptyString => true
  | String c _ => Ascii.eqb c CR
  end.

(** A reader of rows: quoted fields with commas between them, up to the
    end of the text or to the first character that is not a comma after a
    field.  The fuel bounds the number of fields. *)
Fixpoint read_row (fuel : nat) (s : string) : option (list string * string) :=
  match fuel with
  | O => None
  | S fuel' =>
      match read_field s with
      | None => None
      | Some (value, rest) =>
          match rest with
          | String c rest' =>
              if Ascii.eqb c ","%char then
                match read_row fuel' rest' with
                | Some (values, after) => Some (value :: values, after)
                | None => None
                end
              else Some ([value], rest)
          | EmptyString => Some ([value], rest)
          end
      end
  end.

(** A reader of tables: rows with CRLF between them, to the end of the
    text.  The fuel bounds the number of rows. *)
Fixpoint read_rows (fuel : nat) (s : string) : option (list (list string)) :=
  match fuel with
  | O => None
  | S fuel' =>
      match read_row (String.length s) s with
      | Some (row, EmptyString) => Some [row]
      | Some (row, String c1 (String c2 rest)) =>
          if Ascii.eqb c1 CR && Ascii.eqb c2 LF then
            match read_rows fuel' rest with
            | Some rows => Some (row :: rows)
            | None => None
            end
          else None
      | _ => None
      end
  end.

(** A reader of CSV files that begin with the byte-order mark. *)
Definition read_csv (s : string) : option (list (list string)) :=
  match strip_prefix BOM s with
  | Some body => read_rows (String.length body) body
  | None => None
  end.

(** The text of a table of fields: quoted fields joined by commas, rows
    joined by CRLF, after the byte-order mark. *)
Definition csv_text (table : list (list string)) : string :=
  BOM ++ join CRLF (map (fun row => join "," (map quote_field row)) table).

Section MatchingNotions.
Context {R : Runtime}.

(** [e] is an entry of least rate among the entries of [sorData] named
    [itemName], letter case apart. *)
Definition cheapest_match (sorData : list SORItem) (itemName : string) (e : SORItem) : Prop :=
  In e (TenderProcessor.exactMatches sorData itemName)
  /\ forall m, In m (TenderProcessor.exactMatches sorData itemName) -> rate e <= rate m.

(** The summary of the catalog handed to the service. *)
Definition summary (sorData : list SORItem) : list (string * string) :=
  map (fun d => (sor_id d, sor_name d)) sorData.

(** The entry an identifier returned by the service resolves to. *)
Definition resolves (sorData : list SORItem) (matchedId : Json) : option SORItem :=
  find (fun d => strict_eq_string (sor_id d) matchedId) sorData.
End MatchingNotions.

(** * The rest of the program

    The catalog operations, the search, the tender list view and the
    extraction calls, which the properties of the second part are about. *)

(** [s.includes(sub)] *)
Fixpoint includes (s sub : string) : bool :=
  match strip_prefix sub s with
  | Some _ => true
  | None =>
      match s with
      | EmptyString => false
      | String _ rest => includes rest sub
      end
  end.

(** A rate as the form and the extraction hand it over: an entry without
    identifier and timestamp. *)
Record NewRate : Type := mkNewRate {
  new_name : string;
  new_unit : string;
  new_rate : number;
  new_scopeOfWork : string;
  new_source : string
}.

(** [{ ...item, id, timestamp }] *)
Definition stamped (item : NewRate) (id : string) (timestamp : number) : SORItem :=
  mkSOR id (new_name item) (new_unit item) (new_rate item) (new_scopeOfWork item)
        (new_source item) timestamp.

(** The reading of the clock, which depends on what happened so far. *)
Class Clock : Type := {
  Date_now_value : Trace -> number
}.

(** The unchecked reading of an extracted value as a list of rates. *)
Class Casts : Type := {
  as_NewRates : Json -> list NewRate
}.

(** [Date.now()] *)
Definition Date_now {C : Clock} : M number :=
  fun t => (Return (Date_now_value t), t).

(** The requests of the two extraction prompts: the text in the first value,
    the kind of record asked for in the second. *)
Definition bulk_items_request (text : string) : Request :=
  mkRequest "gemini-3-flash-preview" text "tender items" [].

Definition rates_request (text : string) : Request :=
  mkRequest "gemini-3-flash-preview" text "SOR items" [].

(** ** The extraction calls of [src/services/geminiservice.ts] *)

Module GeminiExtraction.
Section Service.
Context {W : World} {R : Runtime}.

Definition parseBulkItems (text : string) : M Json :=
  _ <- GeminiService.getClient ;;
  try_catch
    (response <- generateContent (bulk_items_request text) ;;
     JSON_parse_js (text_or response "[]"))
    (fun _ => ret (JArr [])).

Definition parseRatesFromText (text : string) : M Json :=
  _ <- GeminiService.getClient ;;
  try_catch
    (response <- generateContent (rates_request text) ;;
     JSON_parse_js (text_or response "[]"))
    (fun _ => ret (JArr [])).
End Service.
End GeminiExtraction.

(** ** The extraction calls of the application file *)

Module AppExtraction.
Section Service.
Context {W : World} {R : Runtime}.

Definition parseBulkItems (text : string) : M Json :=
  try_catch
    (_ <- AppService.client ;;
     response <- generateContent (bulk_items_request text) ;;
     JSON_parse_js (text_or response "[]"))
    (fun _ => ret (JArr [])).

Definition parseRatesFromText (text : string) : M Json :=
  try_catch
    (_ <- AppService.client ;;
     response <- generateContent (rates_request text) ;;
     JSON_parse_js (text_or response "[]"))
    (fun _ => ret (JArr [])).
End Service.
End AppExtraction.

(** ** The bulk tab of the rate form *)

Record FormState : Type := mkForm {
  bulkText : string;
  previewItems : list NewRate;
  isProcessing : bool
}.

(** [handleScrape] of [src/components/RateForm.tsx]: the state of the form
    after the handler, and how the handler ended. *)
Definition RateForm_handleScrape {W : World} {R : Runtime} {K : Casts}
    (st : FormState) (t : Trace) : FormState * (Result unit * Trace) :=
  if String.eqb (trim (bulkText st)) "" then (st, (Return tt, t))
  else
    match GeminiExtraction.parseRatesFromText (bulkText st) t with
    | (Return extracted, t') =>
        (mkForm (bulkText st) (as_NewRates extracted) false, (Return tt, t'))
    | (Throw e, t') =>
        (mkForm (bulkText st) (previewItems st) false, (Throw e, t'))
    end.

(** [handleScrape] of the application file, which has no [finally]. *)
Definition App_handleScrape {W : World} {R : Runtime} {K : Casts}
    (st : FormState) (t : Trace) : FormState * (Result unit * Trace) :=
  if String.eqb (trim (bulkText st)) "" then (st, (Return tt, t))
  else
    match AppExtraction.parseRatesFromText (bulkText st) t with
    | (Return extracted, t') =>
        (mkForm (bulkText st) (as_NewRates extracted) false, (Return tt, t'))
    | (Throw e, t') =>
        (mkForm (bulkText st) (previewItems st) true, (Throw e, t'))
    end.

(** ** The catalog of the application file *)

Module Catalog.

Record State : Type := mkState {
  sorData : list SORItem;
  editingItem : option SORItem;
  isFormOpen : bool
}.

Section Operations.
Context {W : World} {R : Runtime} {C : Clock}.

Definition handleAddOrUpdateRate (item : NewRate) (st : State) : M State :=
  match editingItem st with
  | Some editing =>
      ret (mkState
             (map (fun r => if String.eqb (sor_id r) (sor_id editing)
                            then stamped item (sor_id r) (timestamp r)
                            else r)
                  (sorData st))
             None false)
  | None =>
      uuid <- randomUUID ;;
      now <- Date_now ;;
      ret (mkState (stamped item uuid now :: sorData st) None false)
  end.

(** The [onBulkSubmit] handler. *)
Definition onBulkSubmit (items : list NewRate) (st : State) : M State :=
  added <- for_push (fun i => uuid <- randomUUID ;;
                               now <- Date_now ;;
                               ret (stamped i uuid now))
                    items ;;
  ret (mkState (added ++ sorData st)%list (editingItem st) false).

(** The [onDelete] handler. *)
Definition onDelete (id : string) (st : State) : State :=
  mkState (filter (fun i => negb (String.eqb (sor_id i) id)) (sorData st))
          (editingItem st) (isFormOpen st).

(** The [onEdit] handler. *)
Definition onEdit (i : SORItem) (st : State) : State :=
  mkState (sorData st) (Some i) true.

Definition filteredRates (sorData : list SORItem) (searchQuery : string) : list SORItem :=
  filter (fun i => includes (toLowerCase (sor_name i)) (toLowerCase searchQuery)
                   || includes (toLowerCase (source i)) (toLowerCase searchQuery))
         sorData.
End Operations.
End Catalog.

(** ** The tender list view *)

Module TenderView.

(** The update of the remove button of the item [item_id]. *)
Definition removeItem (item_id : string) (prev : list TenderItem) : list TenderItem :=
  filter (fun p => negb (String.eqb (id p) item_id)) prev.

(** [item.quantity * (item.matchedRate?.rate || 0)] *)
Definition lineTotal (item : TenderItem) : number :=
  quantity item * number_or (option_map rate (matchedRate item)) 0.

(** The sum of the summary: [items.reduce((sum, item) => sum + ..., 0)]. *)
Definition grandTotal (items : list TenderItem) : number :=
  fold_left (fun sum item => sum + lineTotal item) items 0.

(** [items.filter(i => i.status === 'matched').length] *)
Definition matchesCount (items : list TenderItem) : nat :=
  List.length (filter (fun i => Status_eqb (status i) matched) items).

(** [tenderItems.filter(i => i.matchedRate).length] of the application file. *)
Definition benchmarkCount (tenderItems : list TenderItem) : nat :=
  List.length (filter (fun i => match matchedRate i with Some _ => true | None => false end)
                      tenderItems).
End TenderView.

(** ** Notions of the second part *)

(** The first entry of [entries] whose rate no entry of [entries] is below. *)
Definition earliest_cheapest (entries : list SORItem) : option SORItem :=
  find (fun e => forallb (fun m => if Qlt_le_dec (rate m) (rate e) then false else true)
                         entries)
       entries.

(** The records for which the catalog has no entry of their name. *)
Definition unnamed_records {R : Runtime} (sorData : list SORItem) (parsed : list ParsedItem)
    : list ParsedItem :=
  filter (fun p => match TenderProcessor.exactMatches sorData (p_name p) with
                   | [] => true
                   | _ :: _ => false
                   end)
         parsed.

(** The request of the matching service for a record. *)
Definition match_request (sorData : list SORItem) (p : ParsedItem) : Request :=
  mkRequest "gemini-3-pro-preview" (p_name p) (p_requestedScope p) (summary sorData).

(** * Properties *)

(** ** Sorting by a numeric key and [Math.min] *)

Section SortFacts.
Context {A : Type} (key : A -> number).

#[local] Abbreviation by_key := (fun a b : A => key a - key b).
#[local] Abbreviation key_le := (fun a b : A => key a <= key b).

Lemma sort_insert_perm (x : A) (l : list A) :
  Permutation (sort_insert by_key x l) (x :: l).
Proof.
  induction l as [|y l IH]; simpl.
  - apply Permutation_refl.
  - destruct (Qlt_le_dec 0 (key x - key y)).
    + eapply perm_trans; [apply perm_skip, IH | apply perm_swap].
    + apply Permutation_refl.
Qed.

Lemma Array_sort_perm (l : list A) : Permutation (Array_sort by_key l) l.
Proof.
  induction l as [|x l IH]; simpl.
  - constructor.
  - eapply perm_trans; [apply sort_insert_perm | apply perm_skip, IH].
Qed.

Lemma sort_insert_sorted (x : A) (l : list A) :
  StronglySorted key_le l -> StronglySorted key_le (sort_insert by_key x l).
Proof.
  induction l as [|y l IH]; simpl; intros Hs.
  - repeat constructor.
  - inversion Hs as [|? ? Hl Hy]; subst.
    destruct (Qlt_le_dec 0 (key x - key y)) as [Hlt|Hle].
    + constructor; [exact (IH Hl)|].
      eapply Permutation_Forall; [apply Permutation_sym, sort_insert_perm|].
      constructor; [lra | exact Hy].
    + constructor; [exact Hs|].
      constructor; [lra|].
      eapply Forall_impl; [|exact Hy]. cbv beta. intros; lra.
Qed.

Lemma Array_sort_sorted (l : list A) : StronglySorted key_le (Array_sort by_key l).
Proof.
  induction l as [|x l IH]; simpl; [constructor | now apply sort_insert_sorted].
Qed.

(** The first element of the sorted array is an element of least key. *)
Lemma Array_sort_head (l : list A) (e : A) (rest : list A) :
  Array_sort by_key l = e :: rest ->
  In e l /\ forall m, In m l -> key e <= key m.
Proof.
  intros Heq.
  pose proof (Array_sort_perm l) as Hp.
  pose proof (Array_sort_sorted l) as Hs.
  rewrite Heq in Hp, Hs.
  split.
  - eapply Permutation_in; [exact Hp | now left].
  - intros m Hm.
    apply (Permutation_in _ (Permutation_sym Hp)) in Hm.
    destruct Hm as [<-|Hm]; [lra|].
    inversion Hs as [|? ? _ Hall]; subst.
    rewrite Forall_forall in Hall. now apply Hall.
Qed.

Lemma Array_sort_nonempty (l : list A) :
  l <> [] -> exists e rest, Array_sort by_key l = e :: rest.
Proof.
  intros Hne.
  destruct (Array_sort by_key l) as [|e rest] eqn:Heq; [|eauto].
  pose proof (Array_sort_perm l) as Hp. rewrite Heq in Hp.
  apply Permutation_nil in Hp. contradiction.
Qed.
End SortFacts.

Lemma Math_min_empty (ns : list number) : Math_min ns = None <-> ns = [].
Proof.
  split.
  - destruct ns as [|n ns]; [reflexivity|]. simpl.
    destruct (Math_min ns); discriminate.
  - now intros ->.
Qed.

Lemma Math_min_least (ns : list number) (m : number) :
  Math_min ns = Some m -> In m ns /\ forall n, In n ns -> m <= n.
Proof.
  revert m. induction ns as [|a ns IH]; simpl; intros m Hm; [discriminate|].
  destruct (Math_min ns) as [m'|] eqn:Hmin.
  - destruct (IH m' eq_refl) as [Hin Hle].
    destruct (Qlt_le_dec m' a) as [Hlt|Hge]; injection Hm as <-.
    + split; [now right|]. intros n [<-|Hn]; [lra | now apply Hle].
    + split; [now left|]. intros n [<-|Hn]; [lra|].
      specialize (Hle n Hn). lra.
  - injection Hm as <-. apply Math_min_empty in Hmin. subst ns.
    split; [now left|]. intros n [<-|[]]. lra.
Qed.

(** ** Sequencing *)

Lemma bind_Return {A B} (m : M A) (k : A -> M B) (t t' : Trace) (b : B) :
  bind m k t = (Return b, t') ->
  exists a t1, m t = (Return a, t1) /\ k a t1 = (Return b, t').
Proof.
  unfold bind. destruct (m t) as [[a|e] t1]; intros H; [eauto | discriminate].
Qed.

Lemma for_push_Forall2 {A B} (f : A -> M B) (xs : list A) :
  forall t ys t',
    for_push f xs t = (Return ys, t') ->
    Forall2 (fun x y => exists t1 t2, f x t1 = (Return y, t2)) xs ys.
Proof.
  induction xs as [|x xs IH]; simpl; intros t ys t' H.
  - injection H as <- _. constructor.
  - apply bind_Return in H as (y & t1 & Hy & H).
    apply bind_Return in H as (ys' & t2 & Hys & H).
    injection H as <- _.
    constructor; [eauto | eapply IH; eauto].
Qed.

Lemma for_push_returns {A B} (f : A -> M B) (xs : list A) :
  (forall x t, In x xs -> exists y t', f x t = (Return y, t')) ->
  forall t, exists ys t', for_push f xs t = (Return ys, t').
Proof.
  induction xs as [|x xs IH]; simpl; intros Hf t.
  - eexists _, _. reflexivity.
  - destruct (Hf x t (or_introl eq_refl)) as (y & t1 & Hy).
    destruct (IH (fun x' t' Hin => Hf x' t' (or_intror Hin)) t1) as (ys & t2 & Hys).
    exists (y :: ys), t2. unfold bind. now rewrite Hy, Hys.
Qed.

Lemma Forall2_compose {A B C} (P : A -> B -> Prop) (Q : B -> C -> Prop)
    (xs : list A) (ys : list B) (zs : list C) :
  Forall2 P xs ys -> Forall2 Q ys zs ->
  Forall2 (fun x z => exists y, P x y /\ Q y z) xs zs.
Proof.
  intros HP. revert zs.
  induction HP as [|x y xs ys Hxy _ IH]; intros zs HQ; inversion HQ; subst.
  - constructor.
  - constructor; [eauto | now apply IH].
Qed.

Lemma Forall2_at {A B} (P : A -> B -> Prop) (xs : list A) (ys : list B) :
  Forall2 P xs ys ->
  forall n x, nth_error xs n = Some x -> exists y, nth_error ys n = Some y /\ P x y.
Proof.
  induction 1 as [|x y xs ys Hxy _ IH]; intros [|n] a Hn; simpl in *; try discriminate.
  - injection Hn as <-. eauto.
  - now apply IH.
Qed.

(** ** The matching service *)

Section ServiceFacts.
Context {W : World} {R : Runtime}.

Lemma or_null_value (v : option Json) : or_null v = JNull \/ truthy (or_null v) = true.
Proof.
  destruct v as [j|]; simpl; [|now left].
  destruct (truthy j) eqn:Hj; [now right | now left].
Qed.

(** What [findBestMatchingItem] of the service module resolves to is [null]
    or a truthy value. *)
Lemma service_value (n s : string) (db : list (string * string)) (t t' : Trace) (v : Json) :
  GeminiService.findBestMatchingItem n s db t = (Return v, t') ->
  v = JNull \/ truthy v = true.
Proof.
  unfold GeminiService.findBestMatchingItem, GeminiService.getClient, new_GoogleGenAI.
  destruct (List.length db =? 0)%nat; [intros H; injection H as <- _; now left|].
  unfold bind, try_catch, generateContent, JSON_parse_js, get_matchedId, ret, throw.
  destruct client_constructs; [|discriminate].
  destruct generateContent_outcome as [|text];
    [intros H; injection H as <- _; now left|].
  destruct (JSON_parse (text_or text "{}")) as [[]|];
    intros H; injection H as <- _; solve [now left | apply or_null_value].
Qed.

Lemma app_service_value (n s : string) (db : list (string * string)) (t t' : Trace) (v : Json) :
  AppService.findBestMatchingItem n s db t = (Return v, t') ->
  v = JNull \/ truthy v = true.
Proof.
  unfold AppService.findBestMatchingItem, AppService.client, new_GoogleGenAI.
  destruct (List.length db =? 0)%nat; [intros H; injection H as <- _; now left|].
  unfold bind, try_catch, generateContent, JSON_parse_js, get_matchedId, ret, throw.
  destruct client_constructs; [|intros H; injection H as <- _; now left].
  destruct generateContent_outcome as [|text];
    [intros H; injection H as <- _; now left|].
  destruct (JSON_parse (text_or text "{}")) as [[]|];
    intros H; injection H as <- _; solve [now left | apply or_null_value].
Qed.

(** The service of the application file never throws. *)
Lemma app_service_returns (n s : string) (db : list (string * string)) (t : Trace) :
  exists v t', AppService.findBestMatchingItem n s db t = (Return v, t').
Proof.
  unfold AppService.findBestMatchingItem, AppService.client, new_GoogleGenAI.
  destruct (List.length db =? 0)%nat; [eexists _, _; reflexivity|].
  unfold bind, try_catch, generateContent, JSON_parse_js, get_matchedId, ret, throw.
  destruct client_constructs; [|eexists _, _; reflexivity].
  destruct generateContent_outcome as [|text]; [eexists _, _; reflexivity|].
  destruct (JSON_parse (text_or text "{}")) as [[]|]; eexists _, _; reflexivity.
Qed.

(** The service module returns whenever the client can be constructed, and
    whenever the catalog summary is empty. *)
Lemma service_returns (n s : string) (db : list (string * string)) (t : Trace) :
  client_constructs = true \/ db = [] ->
  exists v t', GeminiService.findBestMatchingItem n s db t = (Return v, t').
Proof.
  unfold GeminiService.findBestMatchingItem, GeminiService.getClient, new_GoogleGenAI.
  intros [Hc| ->]; [|eexists _, _; reflexivity].
  destruct (List.length db =? 0)%nat; [eexists _, _; reflexivity|].
  unfold bind, try_catch, generateContent, JSON_parse_js, get_matchedId, ret, throw.
  rewrite Hc.
  destruct generateContent_outcome as [|text]; [eexists _, _; reflexivity|].
  destruct (JSON_parse (text_or text "{}")) as [[]|]; eexists _, _; reflexivity.
Qed.

(** In the service module the client is constructed outside the [try]: with a
    catalog to search and a constructor that throws, the exception reaches
    the caller and no request is issued. *)
Lemma service_client_error (n s : string) (db : list (string * string)) (t : Trace) :
  client_constructs = false -> db <> [] ->
  GeminiService.findBestMatchingItem n s db t = (Throw ClientError, t).
Proof.
  unfold GeminiService.findBestMatchingItem, GeminiService.getClient, new_GoogleGenAI.
  intros Hc Hdb. destruct db; [contradiction|]. simpl. rewrite Hc. reflexivity.
Qed.
End ServiceFacts.

(** What [findBestMatchingItem] does once past the construction of the
    client, in the service module and in the application file alike: for an
    empty catalog summary it returns [null] and leaves the trace as it was,
    so no client is constructed and no request is issued; when the request
    it issues is rejected, or the text of the response does not parse, or
    parses to a value whose [matchedId] cannot be read, it returns [null] as
    well, the request being the only effect.  The function of the
    application file always returns; the one of the service module can throw,
    and then what the construction of the client throws, before any
    request. *)
Theorem findBestMatchingItem_null_on_failure {W : World} {R : Runtime}
    (n s : string) (db : list (string * string)) (t : Trace) :
  let req := mkRequest "gemini-3-pro-preview" n s db in
  let issued := mkTrace (remote_calls t ++ [req]) (uuids_drawn t) (dialogs t) in
  let outcome := generateContent_outcome (List.length (remote_calls t)) req in
  let failed :=
    outcome = Rejects
    \/ exists text, outcome = Responds text
                    /\ (JSON_parse (text_or text "{}") = None
                        \/ JSON_parse (text_or text "{}") = Some JNull) in
  (GeminiService.findBestMatchingItem n s [] t = (Return JNull, t)
   /\ AppService.findBestMatchingItem n s [] t = (Return JNull, t))
  /\ (remote_calls (snd (GeminiService.findBestMatchingItem n s db t))
      = (remote_calls t ++ [req])%list ->
      failed ->
      GeminiService.findBestMatchingItem n s db t = (Return JNull, issued))
  /\ (remote_calls (snd (AppService.findBestMatchingItem n s db t))
      = (remote_calls t ++ [req])%list ->
      failed ->
      AppService.findBestMatchingItem n s db t = (Return JNull, issued))
  /\ (forall e t', GeminiService.findBestMatchingItem n s db t = (Throw e, t') ->
                   e = ClientError /\ t' = t)
  /\ (exists v t', AppService.findBestMatchingItem n s db t = (Return v, t')).
Proof.
  cbv zeta.
  assert (Hfresh : forall req, remote_calls t = (remote_calls t ++ [req])%list -> False).
  { intros req H. apply (f_equal (@List.length Request)) in H.
    rewrite length_app in H. simpl in H. lia. }
  split; [split; reflexivity|]. split; [|split; [|split]].
  - unfold GeminiService.findBestMatchingItem, GeminiService.getClient, new_GoogleGenAI.
    destruct db as [|d db]; [intros H; destruct (Hfresh _ H)|].
    cbn [List.length Nat.eqb].
    unfold bind, try_catch, generateContent, JSON_parse_js, get_matchedId, ret, throw.
    destruct client_constructs; [|intros H; destruct (Hfresh _ H)].
    intros _ [-> | (text & -> & [-> | ->])]; reflexivity.
  - unfold AppService.findBestMatchingItem, AppService.client, new_GoogleGenAI.
    destruct db as [|d db]; [intros H; destruct (Hfresh _ H)|].
    cbn [List.length Nat.eqb].
    unfold bind, try_catch, generateContent, JSON_parse_js, get_matchedId, ret, throw.
    destruct client_constructs; [|intros H; destruct (Hfresh _ H)].
    intros _ [-> | (text & -> & [-> | ->])]; reflexivity.
  - intros e t'.
    unfold GeminiService.findBestMatchingItem, GeminiService.getClient, new_GoogleGenAI.
    destruct (List.length db =? 0)%nat; [discriminate|].
    unfold bind, try_catch, generateContent, JSON_parse_js, get_matchedId, ret, throw.
    destruct client_constructs; [|intros H; injection H as <- <-; now split].
    destruct generateContent_outcome as [|text]; [discriminate|].
    destruct (JSON_parse (text_or text "{}")) as [[]|]; discriminate.
  - apply app_service_returns.
Qed.

Lemma findBestMatchingItem_null_on_failure_witness :
  let W := Reference.scripted_world true [Rejects] true in
  let R := Reference.reference_runtime in
  let db := [("s1", "10HP Pump")] in
  let req := mkRequest "gemini-3-pro-preview" "valve" "supply" db in
  remote_calls (snd (GeminiService.findBestMatchingItem "valve" "supply" db Reference.start))
  = (remote_calls Reference.start ++ [req])%list
  /\ generateContent_outcome 0 req = Rejects
  /\ GeminiService.findBestMatchingItem "valve" "supply" db Reference.start
     = (Return JNull, mkTrace [req] 0 []).
Proof.
  intros W R db req.
  split; [reflexivity|]. split; [reflexivity|].
  destruct (findBestMatchingItem_null_on_failure "valve" "supply" db Reference.start)
    as (_ & H & _).
  apply H; [reflexivity | left; reflexivity].
Defined.

(** C5.  [findBestMatchingItem] of the service module does let an exception
    reach its caller: [getClient] is called before the [try], so with a
    catalog summary that is not empty and a client whose construction
    throws, the call throws the error of the construction and issues no
    request.  The function of the application file, which builds the client
    inside the [try], returns [null] on the same input. *)
Theorem findBestMatchingItem_client_error_propagates {W : World} {R : Runtime}
    (n s : string) (db : list (string * string)) (t : Trace) :
  client_constructs = false ->
  db <> [] ->
  GeminiService.findBestMatchingItem n s db t = (Throw ClientError, t)
  /\ AppService.findBestMatchingItem n s db t = (Return JNull, t).
Proof.
  intros Hc Hdb. split; [now apply service_client_error|].
  unfold AppService.findBestMatchingItem, AppService.client, new_GoogleGenAI.
  destruct db as [|d db]; [contradiction|].
  cbn [List.length Nat.eqb]. unfold bind, try_catch. rewrite Hc. reflexivity.
Qed.

Lemma findBestMatchingItem_client_error_propagates_witness :
  let W := Reference.scripted_world false [] true in
  let R := Reference.reference_runtime in
  let db := [("s1", "10HP Pump")] in
  client_constructs = false
  /\ db <> []
  /\ GeminiService.findBestMatchingItem "valve" "supply" db Reference.start
     = (Throw ClientError, Reference.start)
  /\ AppService.findBestMatchingItem "valve" "supply" db Reference.start
     = (Return JNull, Reference.start).
Proof.
  intros W R db.
  assert (Hc : client_constructs = false) by reflexivity.
  assert (Hdb : db <> []) by discriminate.
  split; [exact Hc|]. split; [exact Hdb|].
  exact (findBestMatchingItem_client_error_propagates "valve" "supply" db
           Reference.start Hc Hdb).
Defined.

(** ** The benchmark flag *)

Section BenchmarkFacts.
Context {R : Runtime}.

Lemma sameItems_In (allRates : list SORItem) (item e : SORItem) :
  In e (RateList.sameItems allRates item) <->
  In e allRates /\ toLowerCase (sor_name e) = toLowerCase (sor_name item).
Proof.
  unfold RateList.sameItems. rewrite filter_In, String.eqb_eq. tauto.
Qed.

Lemma sameItems_same_group (allRates : list SORItem) (item e : SORItem) :
  toLowerCase (sor_name e) = toLowerCase (sor_name item) ->
  RateList.sameItems allRates e = RateList.sameItems allRates item.
Proof.
  intros He. unfold RateList.sameItems. now rewrite He.
Qed.

Lemma strict_eq_min_minimum (group : list SORItem) (r : number) :
  group <> [] ->
  strict_eq_min r (Math_min (map rate group)) = true <-> group_minimum group r.
Proof.
  intros Hne. unfold strict_eq_min, group_minimum.
  destruct (Math_min (map rate group)) as [m|] eqn:Hmin.
  - destruct (Math_min_least _ _ Hmin) as [Hin Hle].
    apply in_map_iff in Hin as (e0 & He0 & Hin0).
    rewrite Qeq_bool_iff. split.
    + intros Hr. split.
      * exists e0. split; [exact Hin0|]. rewrite He0. now symmetry.
      * intros e He. rewrite Hr. apply Hle. now apply in_map.
    + intros [(e1 & Hin1 & He1) Hall].
      apply Qle_antisym.
      * rewrite <- He0. now apply Hall.
      * rewrite <- He1. apply Hle. now apply in_map.
  - apply Math_min_empty in Hmin. destruct group; [contradiction | discriminate].
Qed.

Lemma isLowest_App_RateList (allRates : list SORItem) (item : SORItem) :
  App.isLowest allRates item = RateList.isLowest allRates item.
Proof.
  unfold App.isLowest, RateList.isLowest. fold (RateList.sameItems allRates item).
  destruct (List.length (RateList.sameItems allRates item)) as [|[|k]]; reflexivity.
Qed.

Lemma isLowest_iff (allRates : list SORItem) (item : SORItem) :
  RateList.isLowest allRates item = true <->
  (1 < List.length (RateList.sameItems allRates item))%nat
  /\ group_minimum (RateList.sameItems allRates item) (rate item).
Proof.
  unfold RateList.isLowest.
  destruct (List.length (RateList.sameItems allRates item) <=? 1)%nat eqn:Hlen.
  - apply Nat.leb_le in Hlen. split; [discriminate | intros [H _]; lia].
  - apply Nat.leb_gt in Hlen.
    rewrite strict_eq_min_minimum.
    + tauto.
    + intros Hnil. rewrite Hnil in Hlen. simpl in Hlen. lia.
Qed.
End BenchmarkFacts.

(** C4.  The benchmark flag [isLowest], in the rate list component and in the
    application file alike, holds for an entry exactly when the entries
    sharing its name, letter case apart, are more than one and its rate is
    the least rate among them.  So no entry of a group of one is flagged, and
    of the entries of a group that share the least rate either all are
    flagged or none. *)
Theorem isLowest_flags_group_minimum {R : Runtime} (allRates : list SORItem) (item : SORItem) :
  let group := RateList.sameItems allRates item in
  (RateList.isLowest allRates item = true <->
   (1 < List.length group)%nat /\ group_minimum group (rate item))
  /\ App.isLowest allRates item = RateList.isLowest allRates item
  /\ ((List.length group <= 1)%nat -> RateList.isLowest allRates item = false)
  /\ (forall e, In e group -> rate e == rate item ->
      RateList.isLowest allRates e = RateList.isLowest allRates item).
Proof.
  cbv zeta. split; [apply isLowest_iff|]. split; [apply isLowest_App_RateList|]. split.
  - intros Hlen. unfold RateList.isLowest.
    apply Nat.leb_le in Hlen. now rewrite Hlen.
  - intros e He Hrate.
    apply sameItems_In in He as [_ Hname].
    unfold RateList.isLowest.
    rewrite (sameItems_same_group allRates item e Hname).
    destruct (List.length (RateList.sameItems allRates item) <=? 1)%nat; [reflexivity|].
    unfold strict_eq_min.
    destruct (Math_min (map rate (RateList.sameItems allRates item))) as [m|]; [|reflexivity].
    apply eq_true_iff_eq. rewrite !Qeq_bool_iff. now rewrite Hrate.
Qed.

Lemma isLowest_flags_group_minimum_witness :
  let R := Reference.reference_runtime in
  let group := RateList.sameItems Reference.catalog Reference.pump_cheap in
  (1 < List.length group)%nat
  /\ group_minimum group (rate Reference.pump_cheap)
  /\ RateList.isLowest Reference.catalog Reference.pump_cheap = true
  /\ RateList.isLowest Reference.catalog Reference.pump_dear = false
  /\ RateList.isLowest Reference.catalog Reference.cable = false.
Proof.
  intros R. cbv zeta.
  assert (Hlen : (1 < List.length (RateList.sameItems Reference.catalog Reference.pump_cheap))%nat)
    by (vm_compute; lia).
  assert (Hmin : group_minimum (RateList.sameItems Reference.catalog Reference.pump_cheap)
                               (rate Reference.pump_cheap)).
  { split.
    - exists Reference.pump_cheap. split; [vm_compute; tauto | reflexivity].
    - intros e He. vm_compute in He. destruct He as [<-|[<-|[]]]; vm_compute; discriminate. }
  split; [exact Hlen|]. split; [exact Hmin|]. split.
  - apply (proj1 (isLowest_flags_group_minimum Reference.catalog Reference.pump_cheap)).
    split; assumption.
  - split; reflexivity.
Defined.

(** ** The accept action *)

Lemma with_status_matched (i : TenderItem) :
  status i = matched -> with_status i matched = i.
Proof.
  destruct i; simpl. intros ->. reflexivity.
Qed.

Lemma acceptMatch_at (item_id : string) (prev : list TenderItem) (n : nat) :
  nth_error (TenderProcessor.acceptMatch item_id prev) n
  = option_map (fun i => if String.eqb (id i) item_id then with_status i matched else i)
               (nth_error prev n).
Proof.
  unfold TenderProcessor.acceptMatch. apply nth_error_map.
Qed.

Lemma acceptMatch_twice (item_id : string) (prev : list TenderItem) :
  TenderProcessor.acceptMatch item_id (TenderProcessor.acceptMatch item_id prev)
  = TenderProcessor.acceptMatch item_id prev.
Proof.
  unfold TenderProcessor.acceptMatch. rewrite map_map. apply map_ext.
  intros i. destruct (String.eqb (id i) item_id) eqn:Hid; simpl; now rewrite Hid.
Qed.

(** C6.  The accept action on the item [item_id]: an item already [matched]
    stays as it is, status and matched rate included; accepting twice is
    accepting once; the accepted item becomes [matched] and keeps its matched
    rate; no item with another identifier changes, and where identifiers are
    unique no item at another position does; the list keeps its length. *)
Theorem acceptMatch_idempotent (item_id : string) (prev : list TenderItem) :
  (forall n i, nth_error prev n = Some i -> status i = matched ->
     nth_error (TenderProcessor.acceptMatch item_id prev) n = Some i)
  /\ TenderProcessor.acceptMatch item_id (TenderProcessor.acceptMatch item_id prev)
     = TenderProcessor.acceptMatch item_id prev
  /\ (forall n i, nth_error prev n = Some i -> id i = item_id ->
      exists i', nth_error (TenderProcessor.acceptMatch item_id prev) n = Some i'
                 /\ status i' = matched /\ matchedRate i' = matchedRate i
                 /\ i' = with_status i matched)
  /\ (forall n i, nth_error prev n = Some i -> id i <> item_id ->
      nth_error (TenderProcessor.acceptMatch item_id prev) n = Some i)
  /\ (NoDup (map id prev) ->
      forall k target, nth_error prev k = Some target -> id target = item_id ->
      forall n, n <> k ->
        nth_error (TenderProcessor.acceptMatch item_id prev) n = nth_error prev n)
  /\ List.length (TenderProcessor.acceptMatch item_id prev) = List.length prev.
Proof.
  repeat split.
  - intros n i Hn Hst. rewrite acceptMatch_at, Hn. simpl.
    rewrite (with_status_matched i Hst). now destruct (String.eqb (id i) item_id).
  - apply acceptMatch_twice.
  - intros n i Hn Hid. exists (with_status i matched).
    rewrite acceptMatch_at, Hn. simpl.
    apply String.eqb_eq in Hid. rewrite Hid. repeat split.
  - intros n i Hn Hid. rewrite acceptMatch_at, Hn. simpl.
    apply String.eqb_neq in Hid. now rewrite Hid.
  - intros Hnd k target Hk Htarget n Hnk.
    rewrite acceptMatch_at.
    destruct (nth_error prev n) as [i|] eqn:Hn; [|reflexivity]. simpl.
    destruct (String.eqb (id i) item_id) eqn:Hid; [|reflexivity].
    exfalso. apply Hnk.
    apply String.eqb_eq in Hid.
    rewrite NoDup_nth_error in Hnd. apply Hnd.
    + rewrite length_map. apply nth_error_Some. now rewrite Hn.
    + rewrite !nth_error_map, Hn, Hk. simpl. congruence.
  - unfold TenderProcessor.acceptMatch. apply length_map.
Qed.

Lemma acceptMatch_idempotent_witness :
  let suggested := mkTender "t1" "cu cable" 3 "x" None (Some Reference.cable) review in
  let settled := mkTender "t2" "10hp pump" 1 "y" None (Some Reference.pump_cheap) matched in
  let prev := [suggested; settled] in
  NoDup (map id prev)
  /\ TenderProcessor.acceptMatch "t1" prev = [with_status suggested matched; settled]
  /\ TenderProcessor.acceptMatch "t2" prev = prev
  /\ nth_error (TenderProcessor.acceptMatch "t1" prev) 1 = nth_error prev 1.
Proof.
  cbv zeta.
  assert (Hnd : NoDup (map id [mkTender "t1" "cu cable" 3 "x" None (Some Reference.cable) review;
                               mkTender "t2" "10hp pump" 1 "y" None
                                        (Some Reference.pump_cheap) matched])).
  { simpl. constructor; [intros [H|[]]; discriminate|].
    constructor; [intros []|constructor]. }
  split; [exact Hnd|]. split; [reflexivity|]. split; [reflexivity|].
  destruct (acceptMatch_idempotent "t1"
              [mkTender "t1" "cu cable" 3 "x" None (Some Reference.cable) review;
               mkTender "t2" "10hp pump" 1 "y" None (Some Reference.pump_cheap) matched])
    as (_ & _ & _ & _ & H & _).
  apply (H Hnd 0%nat _ eq_refl eq_refl 1%nat). discriminate.
Defined.

(** ** Restoring a backup *)

Section RestoreFacts.
Context {W : World} {R : Runtime}.

(** A file that is not JSON: the notice is shown and the catalog is kept. *)
Lemma handleRestore_invalid_JSON (text : string) (sorData : list SORItem) (t : Trace) :
  JSON_parse text = None ->
  App.handleRestore (Some text) sorData t
  = (Return sorData,
     mkTrace (remote_calls t) (uuids_drawn t) (dialogs t ++ [Alert "Invalid backup file."])).
Proof.
  intros Hp. unfold App.handleRestore, try_catch, bind, JSON_parse_js.
  rewrite Hp. reflexivity.
Qed.

(** In neither failure is the catalog replaced. *)
Lemma handleRestore_keeps_catalog (text : string) (sorData : list SORItem) (t : Trace) :
  JSON_parse text = None
  \/ (exists v, JSON_parse text = Some v /\ Array_isArray v = false) ->
  fst (App.handleRestore (Some text) sorData t) = Return sorData.
Proof.
  intros [Hp | (v & Hp & Hv)].
  - now rewrite handleRestore_invalid_JSON.
  - unfold App.handleRestore, try_catch, bind, JSON_parse_js. rewrite Hp.
    destruct v; try reflexivity. discriminate.
Qed.
End RestoreFacts.

(** C7, on a file that is JSON but not an array.  [handleRestore] keeps the
    catalog, and it raises no dialog at all: the trace after the handler is
    the trace before it, so the notice shown for a file that fails to parse
    is not shown for this one. *)
Theorem handleRestore_not_array_silent {W : World} {R : Runtime}
    (text : string) (v : Json) (sorData : list SORItem) (t : Trace) :
  JSON_parse text = Some v ->
  Array_isArray v = false ->
  App.handleRestore (Some text) sorData t = (Return sorData, t)
  /\ dialogs (snd (App.handleRestore (Some text) sorData t)) = dialogs t.
Proof.
  intros Hp Hv.
  assert (H : App.handleRestore (Some text) sorData t = (Return sorData, t)).
  { unfold App.handleRestore, try_catch, bind, JSON_parse_js. rewrite Hp.
    destruct v; try reflexivity. discriminate. }
  split; [exact H|]. now rewrite H.
Qed.

Lemma handleRestore_not_array_silent_witness :
  let W := Reference.scripted_world true [] true in
  let R := Reference.reference_runtime in
  JSON_parse "{}" = Some (JObj [])
  /\ Array_isArray (JObj []) = false
  /\ App.handleRestore (Some "{}") Reference.catalog Reference.start
     = (Return Reference.catalog, Reference.start).
Proof.
  intros W R.
  split; [reflexivity|]. split; [reflexivity|].
  destruct (handleRestore_not_array_silent "{}" (JObj []) Reference.catalog Reference.start)
    as [H _]; [reflexivity | reflexivity | exact H].
Defined.

(** ** The variance *)

Lemma calculateDiff_guard (est quoted : option number) :
  truthy_opt est = false \/ truthy_opt quoted = false ->
  TenderProcessor.calculateDiff est quoted = None.
Proof.
  unfold TenderProcessor.calculateDiff.
  intros [-> | ->]; [reflexivity|]. now rewrite orb_true_r.
Qed.

(** A variance is computed from two rates that are there and not zero, and
    the division it makes is by a divisor that is not zero. *)
Lemma calculateDiff_divides_safely (est quoted : option number) (d : quotient) :
  TenderProcessor.calculateDiff est quoted = Some d ->
  exists e q, est = Some e /\ quoted = Some q /\ ~ e == 0 /\ ~ q == 0
              /\ divide (q - e) e = Finite ((q - e) / e)
              /\ d = Finite ((q - e) / e * 100).
Proof.
  unfold TenderProcessor.calculateDiff, truthy_opt, truthy_number, divide.
  destruct est as [e|], quoted as [q|]; simpl; try discriminate.
  - destruct (Qeq_bool e 0) eqn:He; simpl; [discriminate|].
    destruct (Qeq_bool q 0) eqn:Hq; simpl; [discriminate|].
    intros H. injection H as <-.
    exists e, q.
    split; [reflexivity|]. split; [reflexivity|].
    split; [intros H0; apply Qeq_bool_iff in H0; congruence|].
    split; [intros H0; apply Qeq_bool_iff in H0; congruence|].
    rewrite ?He. split; reflexivity.
  - destruct (Qeq_bool e 0); simpl; discriminate.
Qed.

Lemma percent_is_not_NA (s : string) : s ++ "%" <> "N/A".
Proof.
  destruct s as [|a [|b [|c s]]]; simpl; intros H; try discriminate.
  injection H as _ _ _ H. destruct s; discriminate.
Qed.

Section VarianceFacts.
Context {R : Runtime}.

(** Without an estimated rate, or with one that is zero, the export writes
    [N/A] for the estimate and for the percentage, and divides nothing. *)
Lemma export_row_without_estimate (i : TenderItem) :
  truthy_opt (estimatedRate i) = false ->
  nth_error (TenderProcessor.export_row i) 3 = Some (CStr "N/A")
  /\ nth_error (TenderProcessor.export_row i) 6 = Some (CStr "N/A").
Proof.
  unfold TenderProcessor.export_row, number_or, number_or_NA, truthy_opt.
  destruct (estimatedRate i) as [e|]; simpl.
  - intros ->. split; reflexivity.
  - intros _. split; reflexivity.
Qed.

(** The division of the export row has a divisor that is not zero. *)
Lemma export_row_divides_safely (i : TenderItem) :
  let quoted := number_or (option_map rate (matchedRate i)) 0 in
  let est := number_or (estimatedRate i) 0 in
  truthy_number est = true ->
  divide (quoted - est) est = Finite ((quoted - est) / est).
Proof.
  cbv zeta. unfold truthy_number, divide.
  destruct (Qeq_bool (number_or (estimatedRate i) 0) 0); [discriminate | reflexivity].
Qed.
End VarianceFacts.

(** C10, on an item with an estimated rate and no quoted rate.
    [calculateDiff] computes no variance for it, and the estimate, not being
    zero, is a safe divisor; the export row nevertheless holds a percentage,
    the one of a quoted rate of zero, which is minus one hundred, where
    [N/A] is specified. *)
Theorem export_row_variance_without_quote {R : Runtime} (i : TenderItem) (est : number) :
  estimatedRate i = Some est ->
  ~ est == 0 ->
  matchedRate i = None ->
  TenderProcessor.calculateDiff (estimatedRate i) (option_map rate (matchedRate i)) = None
  /\ exists d,
       nth_error (TenderProcessor.export_row i) 6 = Some (CStr (toFixed2 (Finite d) ++ "%"))
       /\ d == - (100)
       /\ CStr (toFixed2 (Finite d) ++ "%") <> CStr "N/A".
Proof.
  intros Hest Hnz Hm. split.
  - apply calculateDiff_guard. right. now rewrite Hm.
  - exists ((0 - est) / est * 100).
    assert (Hb : Qeq_bool est 0 = false).
    { destruct (Qeq_bool est 0) eqn:Hb; [|reflexivity].
      apply Qeq_bool_iff in Hb. contradiction. }
    repeat split.
    + unfold TenderProcessor.export_row, number_or, truthy_number, divide, times.
      rewrite Hest, Hm. simpl. rewrite Hb. simpl. rewrite Hb. reflexivity.
    + field. exact Hnz.
    + intros H. injection H as H. exact (percent_is_not_NA _ H).
Qed.

Lemma export_row_variance_without_quote_witness :
  let R := Reference.reference_runtime in
  let i := mkTender "t1" "valve" 2 "supply" (Some 100) None no_match in
  estimatedRate i = Some 100 /\ ~ 100 == 0 /\ matchedRate i = None
  /\ TenderProcessor.calculateDiff (estimatedRate i) (option_map rate (matchedRate i)) = None
  /\ nth_error (TenderProcessor.export_row i) 6 = Some (CStr "-100.00%").
Proof.
  intros R i.
  assert (Hnz : ~ 100 == 0) by discriminate.
  split; [reflexivity|]. split; [exact Hnz|]. split; [reflexivity|].
  split.
  - exact (proj1 (export_row_variance_without_quote i 100 eq_refl Hnz eq_refl)).
  - reflexivity.
Defined.

(** ** CSV export *)

Lemma append_assoc (a b c : string) : (a ++ b) ++ c = a ++ (b ++ c).
Proof.
  induction a as [|x a IH]; simpl; [reflexivity | now rewrite IH].
Qed.

(** The global replacement writes every double quote twice and nothing else. *)
Lemma replace_char_Doubled (v : string) :
  Doubled v (replace_char dq_char (dq ++ dq) v).
Proof.
  induction v as [|c v IH]; simpl.
  - constructor.
  - destruct (Ascii.eqb c dq_char) eqn:Hc.
    + apply Ascii.eqb_eq in Hc. subst c. simpl. now constructor.
    + apply Ascii.eqb_neq in Hc. now constructor.
Qed.

(** Read back, the escaped text followed by a closing quote is the value. *)
Lemma read_quoted_escaped (v after : string) :
  no_leading_quote after = true ->
  read_quoted (replace_char dq_char (dq ++ dq) v ++ dq ++ after) = Some (v, after).
Proof.
  intros Hafter. induction v as [|c v IH].
  - destruct after as [|a after]; [reflexivity|].
    simpl in Hafter. apply negb_true_iff in Hafter.
    change (read_quoted (String dq_char (String a after))
            = Some (EmptyString, String a after)).
    cbn [read_quoted]. now rewrite Ascii.eqb_refl, Hafter.
  - cbn [replace_char].
    destruct (Ascii.eqb c dq_char) eqn:Hc.
    + apply Ascii.eqb_eq in Hc. subst c.
      change (read_quoted (String dq_char (String dq_char
                (replace_char dq_char (dq ++ dq) v ++ dq ++ after)))
              = Some (String dq_char v, after)).
      cbn [read_quoted]. rewrite Ascii.eqb_refl.
      fold read_quoted. now rewrite IH.
    + cbn [append read_quoted]. rewrite Hc. now rewrite IH.
Qed.

Lemma read_field_quote_field (v after : string) :
  no_leading_quote after = true ->
  read_field (quote_field v ++ after) = Some (v, after).
Proof.
  intros Hafter. unfold quote_field.
  rewrite !append_assoc.
  change (dq ++ replace_char dq_char (dq ++ dq) v ++ dq ++ after)
    with (String dq_char (replace_char dq_char (dq ++ dq) v ++ dq ++ after)).
  cbn [read_field]. rewrite Ascii.eqb_refl.
  now apply read_quoted_escaped.
Qed.

Lemma append_empty (a : string) : a ++ "" = a.
Proof.
  induction a as [|x a IH]; simpl; [reflexivity | now rewrite IH].
Qed.

Lemma length_append (a b : string) :
  String.length (a ++ b) = (String.length a + String.length b)%nat.
Proof.
  induction a as [|x a IH]; simpl; [reflexivity | now rewrite IH].
Qed.

Lemma row_end_no_quote (after : string) :
  row_end after = true -> no_leading_quote after = true.
Proof.
  destruct after as [|c after]; simpl; [reflexivity|].
  intros Hc. apply Ascii.eqb_eq in Hc. now subst c.
Qed.

Lemma read_row_fields (row : list string) :
  row <> [] ->
  forall fuel after,
    (List.length row <= fuel)%nat ->
    row_end after = true ->
    read_row fuel (join "," (map quote_field row) ++ after) = Some (row, after).
Proof.
  induction row as [|v row IH]; [contradiction|]. intros _ fuel after Hfuel Hend.
  destruct fuel as [|fuel]; [simpl in Hfuel; lia|].
  destruct row as [|v' row].
  - cbn [map join String.concat read_row].
    rewrite (read_field_quote_field v after (row_end_no_quote _ Hend)).
    destruct after as [|c after]; [reflexivity|].
    simpl in Hend. apply Ascii.eqb_eq in Hend. subst c. reflexivity.
  - change (join "," (map quote_field (v :: v' :: row)))
      with (quote_field v ++ "," ++ join "," (map quote_field (v' :: row))).
    rewrite !append_assoc. cbn [read_row].
    rewrite read_field_quote_field by reflexivity.
    change ("," ++ join "," (map quote_field (v' :: row)) ++ after)
      with (String ","%char (join "," (map quote_field (v' :: row)) ++ after)).
    cbn iota. rewrite Ascii.eqb_refl.
    rewrite IH; [reflexivity | discriminate | simpl in *; lia | exact Hend].
Qed.

Lemma row_text_length (row : list string) :
  row <> [] ->
  (List.length row <= String.length (join "," (map quote_field row)))%nat.
Proof.
  induction row as [|v row IH]; [contradiction|]. intros _.
  destruct row as [|v' row].
  - cbn [map join String.concat List.length]. unfold quote_field.
    rewrite length_append. simpl. lia.
  - assert (H : (List.length (v' :: row)
                 <= String.length (join "," (map quote_field (v' :: row))))%nat)
      by (apply IH; discriminate).
    change (join "," (map quote_field (v :: v' :: row)))
      with (quote_field v ++ "," ++ join "," (map quote_field (v' :: row))).
    set (J := join "," (map quote_field (v' :: row))) in *.
    rewrite !length_append. change (String.length ",") with 1%nat.
    change (List.length (v :: v' :: row)) with (S (List.length (v' :: row))). lia.
Qed.

Lemma read_rows_table (table : list (list string)) :
  table <> [] ->
  Forall (fun row => row <> []) table ->
  forall fuel,
    (List.length table <= fuel)%nat ->
    read_rows fuel (join CRLF (map (fun row => join "," (map quote_field row)) table))
    = Some table.
Proof.
  induction table as [|row table IH]; [contradiction|]. intros _ Hrows fuel Hfuel.
  inversion Hrows as [|? ? Hrow Htable]; subst.
  destruct fuel as [|fuel]; [simpl in Hfuel; lia|].
  destruct table as [|row' table].
  - cbn [map join String.concat read_rows].
    rewrite <- (append_empty (String.concat "," (map quote_field row))) at 2.
    rewrite (read_row_fields row Hrow); [reflexivity | | reflexivity].
    apply (row_text_length row Hrow).
  - set (rest := join CRLF (map (fun r => join "," (map quote_field r)) (row' :: table))).
    change (join CRLF (map (fun r => join "," (map quote_field r)) (row :: row' :: table)))
      with (join "," (map quote_field row) ++ CRLF ++ rest).
    cbn [read_rows].
    rewrite (read_row_fields row Hrow); [| | reflexivity].
    + change (CRLF ++ rest) with (String CR (String LF rest)).
      cbn iota. rewrite !Ascii.eqb_refl. cbn [andb].
      unfold rest. rewrite IH; [reflexivity | discriminate | exact Htable |].
      simpl in *. lia.
    + rewrite length_append. pose proof (row_text_length row Hrow). lia.
Qed.

Lemma table_text_length (table : list (list string)) :
  table <> [] ->
  Forall (fun row => row <> []) table ->
  (List.length table
   <= String.length (join CRLF (map (fun row => join "," (map quote_field row)) table)))%nat.
Proof.
  induction table as [|row table IH]; [contradiction|]. intros _ Hrows.
  inversion Hrows as [|? ? Hrow Htable]; subst.
  pose proof (row_text_length row Hrow) as Hlen.
  assert (Hpos : (1 <= List.length row)%nat) by (destruct row; [contradiction | simpl; lia]).
  destruct table as [|row' table].
  - cbn [map String.concat List.length]. unfold join at 1. cbn [String.concat]. lia.
  - set (rest := join CRLF (map (fun r => join "," (map quote_field r)) (row' :: table))).
    change (join CRLF (map (fun r => join "," (map quote_field r)) (row :: row' :: table)))
      with (join "," (map quote_field row) ++ CRLF ++ rest).
    rewrite !length_append.
    assert (H : (List.length (row' :: table) <= String.length rest)%nat)
      by (apply IH; [discriminate | exact Htable]).
    cbn [List.length] in *. lia.
Qed.

(** Read back as CSV, the text of a table is the table. *)
Lemma read_csv_text (table : list (list string)) :
  table <> [] ->
  Forall (fun row => row <> []) table ->
  read_csv (csv_text table) = Some table.
Proof.
  intros Hne Hrows. unfold read_csv, csv_text.
  change (strip_prefix BOM (BOM ++ ?body)) with (Some body). cbv iota beta.
  apply read_rows_table; [exact Hne | exact Hrows |].
  now apply table_text_length.
Qed.

Section ExportFacts.
Context {R : Runtime}.

Lemma App_generateCSV_text (headers : list string) (rows : list (list Cell)) :
  App.generateCSV headers rows = csv_text (headers :: map (map cell_text) rows).
Proof.
  unfold App.generateCSV, csv_text. cbn [map]. do 3 f_equal.
  rewrite map_map. apply map_ext. intros row. now rewrite map_map.
Qed.

Lemma TenderProcessor_generateCSV_text (data : list (list Cell)) :
  TenderProcessor.generateCSV data = csv_text (map (map cell_text) data).
Proof.
  unfold TenderProcessor.generateCSV, csv_text. do 2 f_equal.
  rewrite map_map. apply map_ext. intros row. now rewrite map_map.
Qed.
End ExportFacts.

(** C8.  Every CSV export of the program is the byte-order mark followed by
    its rows joined with CRLF, a row being its fields joined with commas and
    a field being the value between double quotes with every double quote of
    the value written twice: for [generateCSV] of the application file and
    of the tender processor, and so for the catalog export and for the two
    quotation exports, which have one row per entry or item after the header
    row and which a reader of quoted CSV reads back to the table of their
    values.  The name with the word Heavy between double quotes is escaped
    with two double quotes on either side of the word. *)
Theorem csv_export_quotes_fields {R : Runtime} :
  (forall headers rows,
     App.generateCSV headers rows = csv_text (headers :: map (map cell_text) rows))
  /\ (forall data,
        TenderProcessor.generateCSV data = csv_text (map (map cell_text) data))
  /\ (forall sorData, exists table,
        App.handleExportDatabase sorData = csv_text table
        /\ List.length table = S (List.length sorData)
        /\ read_csv (App.handleExportDatabase sorData) = Some table)
  /\ (forall tenderItems, exists table,
        App.handleExportTender tenderItems = csv_text table
        /\ List.length table = S (List.length tenderItems)
        /\ read_csv (App.handleExportTender tenderItems) = Some table)
  /\ (forall items, exists table,
        TenderProcessor.handleExportExcel items = csv_text table
        /\ List.length table = S (List.length items)
        /\ read_csv (TenderProcessor.handleExportExcel items) = Some table)
  /\ (forall v, exists escaped,
        quote_field v = dq ++ escaped ++ dq /\ Doubled v escaped)
  /\ (forall v after, no_leading_quote after = true ->
        read_field (quote_field v ++ after) = Some (v, after))
  /\ (forall table, table <> [] -> Forall (fun row => row <> []) table ->
        read_csv (csv_text table) = Some table)
  /\ quote_field ("25mm " ++ dq ++ "Heavy" ++ dq ++ " Pipe")
     = dq ++ "25mm " ++ dq ++ dq ++ "Heavy" ++ dq ++ dq ++ " Pipe" ++ dq.
Proof.
  split; [apply App_generateCSV_text|].
  split; [apply TenderProcessor_generateCSV_text|].
  split.
  { intros sorData. eexists. unfold App.handleExportDatabase.
    rewrite App_generateCSV_text. split; [reflexivity|]. split.
    - cbn [List.length]. now rewrite !length_map.
    - apply read_csv_text; [discriminate|].
      constructor; [discriminate|].
      rewrite map_map. apply Forall_map, Forall_forall. intros i _. discriminate. }
  split.
  { intros tenderItems. eexists. unfold App.handleExportTender.
    rewrite App_generateCSV_text. split; [reflexivity|]. split.
    - cbn [List.length]. now rewrite !length_map.
    - apply read_csv_text; [discriminate|].
      constructor; [discriminate|].
      rewrite map_map. apply Forall_map, Forall_forall. intros i _. discriminate. }
  split.
  { intros items. eexists. unfold TenderProcessor.handleExportExcel.
    rewrite TenderProcessor_generateCSV_text. split; [reflexivity|]. split.
    - cbn [map List.length]. now rewrite !length_map.
    - apply read_csv_text; [discriminate|]. cbn [map].
      constructor; [discriminate|].
      rewrite map_map. apply Forall_map, Forall_forall. intros i _. discriminate. }
  split.
  { intros v. exists (replace_char dq_char (dq ++ dq) v).
    split; [reflexivity | apply replace_char_Doubled]. }
  split; [exact read_field_quote_field|].
  split; [exact read_csv_text | reflexivity].
Qed.

Lemma csv_export_quotes_fields_witness :
  let R := Reference.reference_runtime in
  let pipe := mkSOR "s9" ("25mm " ++ dq ++ "Heavy" ++ dq ++ " Pipe") "m" 80 "Supply" "DSR" 4 in
  no_leading_quote ",rest" = true
  /\ read_field (quote_field (sor_name pipe) ++ ",rest") = Some (sor_name pipe, ",rest")
  /\ App.handleExportDatabase [pipe]
     = BOM
       ++ join "," (map (fun h => dq ++ h ++ dq)
                        [ "Item Name"; "Unit"; "Rate (₹)"; "Scope of Work";
                          "Source Reference"; "Date Added" ])
       ++ CRLF
       ++ dq ++ "25mm " ++ dq ++ dq ++ "Heavy" ++ dq ++ dq ++ " Pipe" ++ dq
       ++ "," ++ join "," (map (fun h => dq ++ h ++ dq) ["m"; "80"; "Supply"; "DSR"; "4"]).
Proof.
  intros R pipe.
  split; [reflexivity|]. split; [|reflexivity].
  destruct (@csv_export_quotes_fields R) as (_ & _ & _ & _ & _ & _ & H & _).
  now apply H.
Defined.

(** ** The matching pass *)

Section MatchingFacts.
Context {W : World} {R : Runtime}.

Lemma exactMatches_In (sorData : list SORItem) (itemName : string) (e : SORItem) :
  In e (TenderProcessor.exactMatches sorData itemName) <->
  In e sorData /\ toLowerCase (sor_name e) = toLowerCase itemName.
Proof.
  unfold TenderProcessor.exactMatches. rewrite filter_In, String.eqb_eq. tauto.
Qed.

Lemma resolves_null (sorData : list SORItem) : resolves sorData JNull = None.
Proof.
  unfold resolves. induction sorData as [|d l IH]; simpl; [reflexivity | exact IH].
Qed.

(** With entries of the item's name in the catalog, the loop body pushes the
    first entry of the sorted matches and calls no service. *)
Lemma matchTenderItem_exact (sorData : list SORItem) (tenderItem : TenderItem) (t : Trace) :
  TenderProcessor.exactMatches sorData (name tenderItem) <> [] ->
  exists lowestExact rest,
    Array_sort (fun a b => rate a - rate b)
               (TenderProcessor.exactMatches sorData (name tenderItem))
    = lowestExact :: rest
    /\ TenderProcessor.matchTenderItem sorData tenderItem t
       = (Return (with_match tenderItem
                    (if TenderProcessor.isScopeIdentical lowestExact tenderItem
                     then matched else review)
                    lowestExact), t).
Proof.
  intros Hne.
  destruct (Array_sort_nonempty rate _ Hne) as (e & rest & Hsort).
  exists e, rest. split; [exact Hsort|].
  unfold TenderProcessor.matchTenderItem.
  destruct (TenderProcessor.exactMatches sorData (name tenderItem)) as [|m ms] eqn:Hm;
    [contradiction|].
  cbn [List.length Nat.ltb Nat.leb]. rewrite Hsort. reflexivity.
Qed.

(** Without such entries, the loop body asks the service and pushes the entry
    the answer resolves to, for review, or an item without a match. *)
Lemma matchTenderItem_semantic (sorData : list SORItem) (tenderItem : TenderItem)
    (t t' : Trace) (v : Json) :
  TenderProcessor.exactMatches sorData (name tenderItem) = [] ->
  GeminiService.findBestMatchingItem (name tenderItem) (requestedScope tenderItem)
                                     (summary sorData) t = (Return v, t') ->
  TenderProcessor.matchTenderItem sorData tenderItem t
  = (Return (match resolves sorData v with
             | Some bestMatch => with_match tenderItem review bestMatch
             | None => with_status tenderItem no_match
             end), t').
Proof.
  intros Hnone Hcall.
  unfold TenderProcessor.matchTenderItem. rewrite Hnone. cbn [List.length Nat.ltb Nat.leb].
  fold (summary sorData). unfold bind. rewrite Hcall.
  destruct (service_value _ _ _ _ _ _ Hcall) as [-> | Hv].
  - simpl. now rewrite resolves_null.
  - rewrite Hv. fold (resolves sorData v). now destruct (resolves sorData v).
Qed.

Lemma matchTenderItem_semantic_inv (sorData : list SORItem) (tenderItem item : TenderItem)
    (t t' : Trace) :
  TenderProcessor.exactMatches sorData (name tenderItem) = [] ->
  TenderProcessor.matchTenderItem sorData tenderItem t = (Return item, t') ->
  exists v,
    GeminiService.findBestMatchingItem (name tenderItem) (requestedScope tenderItem)
                                       (summary sorData) t = (Return v, t')
    /\ item = match resolves sorData v with
              | Some bestMatch => with_match tenderItem review bestMatch
              | None => with_status tenderItem no_match
              end.
Proof.
  intros Hnone Hrun.
  destruct (GeminiService.findBestMatchingItem (name tenderItem) (requestedScope tenderItem)
              (summary sorData) t) as [[v|e] t1] eqn:Hcall.
  - rewrite (matchTenderItem_semantic _ _ _ _ _ Hnone Hcall) in Hrun.
    injection Hrun as <- <-. eauto.
  - exfalso. revert Hrun.
    unfold TenderProcessor.matchTenderItem. rewrite Hnone. cbn [List.length Nat.ltb Nat.leb].
    fold (summary sorData). unfold bind. rewrite Hcall. discriminate.
Qed.

(** The loop body returns whenever the client can be constructed. *)
Lemma matchTenderItem_returns (sorData : list SORItem) (tenderItem : TenderItem) (t : Trace) :
  client_constructs = true ->
  exists item t', TenderProcessor.matchTenderItem sorData tenderItem t = (Return item, t').
Proof.
  intros Hc.
  destruct (TenderProcessor.exactMatches sorData (name tenderItem)) as [|m ms] eqn:Hm.
  - destruct (service_returns (name tenderItem) (requestedScope tenderItem)
                (summary sorData) t (or_introl Hc)) as (v & t' & Hcall).
    rewrite (matchTenderItem_semantic _ _ _ _ _ Hm Hcall). eauto.
  - destruct (matchTenderItem_exact sorData tenderItem t) as (e & rest & _ & Hrun).
    + rewrite Hm. discriminate.
    + rewrite Hrun. eauto.
Qed.

Lemma initialTenderItem_run (p : ParsedItem) (t : Trace) :
  TenderProcessor.initialTenderItem p t
  = (Return (TenderProcessor.initial_of (randomUUID_value (uuids_drawn t)) p),
     mkTrace (remote_calls t) (S (uuids_drawn t)) (dialogs t)).
Proof. reflexivity. Qed.

(** The items of a completed pass are, in order, what the loop body pushed
    for the pending items of the parsed records. *)
Lemma handleProcess_items (sorData : list SORItem) (parsed : list ParsedItem)
    (t t' : Trace) (out : list TenderItem) :
  TenderProcessor.handleProcess sorData parsed t = (Return out, t') ->
  Forall2 (fun p item =>
             exists uuid t1 t2,
               TenderProcessor.matchTenderItem sorData (TenderProcessor.initial_of uuid p) t1
               = (Return item, t2))
          parsed out.
Proof.
  unfold TenderProcessor.handleProcess. intros H.
  apply bind_Return in H as (initial & t1 & Hinit & Hloop).
  apply for_push_Forall2 in Hinit, Hloop.
  eapply Forall2_impl; [|exact (Forall2_compose _ _ _ _ _ Hinit Hloop)].
  intros p item (i & (ta & tb & Hi) & (tc & td & Hrun)).
  rewrite initialTenderItem_run in Hi. injection Hi as <- _. eauto.
Qed.

(** The pass completes whenever the client can be constructed. *)
Lemma handleProcess_completes (sorData : list SORItem) (parsed : list ParsedItem) (t : Trace) :
  client_constructs = true ->
  exists out t', TenderProcessor.handleProcess sorData parsed t = (Return out, t').
Proof.
  intros Hc. unfold TenderProcessor.handleProcess, bind.
  destruct (for_push_returns TenderProcessor.initialTenderItem parsed) with (t := t)
    as (initial & t1 & Hinit).
  { intros p t0 _. rewrite initialTenderItem_run. eauto. }
  rewrite Hinit.
  apply for_push_returns. intros i t0 _. now apply matchTenderItem_returns.
Qed.
End MatchingFacts.

(** C2.  A record whose name is, letter case apart, the name of exactly one
    catalog entry, and whose requested scope is that entry's scope of work
    once both are lower-cased and trimmed: the loop body returns the item
    with status [matched] and that entry as matched rate, without calling the
    service, and in every completed pass the item at the record's position
    has that status and that entry. *)
Theorem handleProcess_exact_match_matched {W : World} {R : Runtime}
    (sorData : list SORItem) (p : ParsedItem) (e : SORItem) :
  TenderProcessor.exactMatches sorData (p_name p) = [e] ->
  trim (toLowerCase (scopeOfWork e)) = trim (toLowerCase (p_requestedScope p)) ->
  (forall uuid t,
     TenderProcessor.matchTenderItem sorData (TenderProcessor.initial_of uuid p) t
     = (Return (with_match (TenderProcessor.initial_of uuid p) matched e), t))
  /\ (forall parsed n t out t',
        nth_error parsed n = Some p ->
        TenderProcessor.handleProcess sorData parsed t = (Return out, t') ->
        exists item, nth_error out n = Some item
                     /\ status item = matched /\ matchedRate item = Some e).
Proof.
  intros Hone Hscope.
  assert (Hstep : forall uuid t,
             TenderProcessor.matchTenderItem sorData (TenderProcessor.initial_of uuid p) t
             = (Return (with_match (TenderProcessor.initial_of uuid p) matched e), t)).
  { intros uuid t.
    destruct (matchTenderItem_exact sorData (TenderProcessor.initial_of uuid p) t)
      as (lowest & rest & Hsort & Hrun).
    - cbn [TenderProcessor.initial_of name]. rewrite Hone. discriminate.
    - cbn [TenderProcessor.initial_of name] in Hsort. rewrite Hone in Hsort.
      injection Hsort as <- _.
      rewrite Hrun. unfold TenderProcessor.isScopeIdentical.
      cbn [TenderProcessor.initial_of requestedScope].
      rewrite Hscope, String.eqb_refl. reflexivity. }
  split; [exact Hstep|].
  intros parsed n t out t' Hn Hrun.
  destruct (Forall2_at _ _ _ (handleProcess_items _ _ _ _ _ Hrun) n p Hn)
    as (item & Hitem & uuid & t1 & t2 & Hbody).
  rewrite Hstep in Hbody. injection Hbody as <- _.
  exists (with_match (TenderProcessor.initial_of uuid p) matched e). now repeat split.
Qed.

Lemma handleProcess_exact_match_matched_witness :
  let W := Reference.scripted_world true [] true in
  let R := Reference.reference_runtime in
  let p := mkParsed "COPPER cable" (Some 3) "  laying of Cable " None in
  TenderProcessor.exactMatches Reference.catalog (p_name p) = [Reference.cable]
  /\ trim (toLowerCase (scopeOfWork Reference.cable))
     = trim (toLowerCase (p_requestedScope p))
  /\ TenderProcessor.matchTenderItem Reference.catalog
       (TenderProcessor.initial_of "uuid-0" p) Reference.start
     = (Return (mkTender "uuid-0" "COPPER cable" 3 "  laying of Cable " None
                         (Some Reference.cable) matched),
        Reference.start).
Proof.
  intros W R p.
  split; [reflexivity|]. split; [reflexivity|].
  destruct (handleProcess_exact_match_matched Reference.catalog p Reference.cable)
    as [H _]; [reflexivity | reflexivity |].
  exact (H "uuid-0" Reference.start).
Defined.

(** C3.  A record whose name is, letter case apart, the name of two catalog
    entries [a] and [b] of different rates: for every ordering [sorData'] of
    the catalog, the loop body returns an item whose matched rate is an entry
    of least rate among the entries of that name, hence cheaper than [a] or
    than [b], without calling the service; and in every completed pass over
    [sorData'] the item at the record's position has such an entry. *)
Theorem handleProcess_selects_cheapest {W : World} {R : Runtime}
    (sorData sorData' : list SORItem) (p : ParsedItem) (a b : SORItem) :
  Permutation sorData sorData' ->
  In a (TenderProcessor.exactMatches sorData (p_name p)) ->
  In b (TenderProcessor.exactMatches sorData (p_name p)) ->
  ~ rate a == rate b ->
  (forall uuid t, exists e st,
     TenderProcessor.matchTenderItem sorData' (TenderProcessor.initial_of uuid p) t
     = (Return (with_match (TenderProcessor.initial_of uuid p) st e), t)
     /\ cheapest_match sorData (p_name p) e
     /\ (rate e < rate a \/ rate e < rate b))
  /\ (forall parsed n t out t',
        nth_error parsed n = Some p ->
        TenderProcessor.handleProcess sorData' parsed t = (Return out, t') ->
        exists item e, nth_error out n = Some item
                       /\ matchedRate item = Some e
                       /\ cheapest_match sorData (p_name p) e
                       /\ (rate e < rate a \/ rate e < rate b)).
Proof.
  intros Hperm Ha Hb Hab.
  assert (Hsame : forall m, In m (TenderProcessor.exactMatches sorData' (p_name p))
                            <-> In m (TenderProcessor.exactMatches sorData (p_name p))).
  { intros m. rewrite !exactMatches_In. split; intros [Hin Hn]; split; try exact Hn.
    - exact (Permutation_in _ (Permutation_sym Hperm) Hin).
    - exact (Permutation_in _ Hperm Hin). }
  assert (Hstep : forall uuid t, exists e st,
             TenderProcessor.matchTenderItem sorData' (TenderProcessor.initial_of uuid p) t
             = (Return (with_match (TenderProcessor.initial_of uuid p) st e), t)
             /\ cheapest_match sorData (p_name p) e
             /\ (rate e < rate a \/ rate e < rate b)).
  { intros uuid t.
    destruct (matchTenderItem_exact sorData' (TenderProcessor.initial_of uuid p) t)
      as (e & rest & Hsort & Hrun).
    - cbn [TenderProcessor.initial_of name]. intros Hnil.
      apply Hsame in Ha. rewrite Hnil in Ha. exact Ha.
    - cbn [TenderProcessor.initial_of name] in Hsort.
      destruct (Array_sort_head rate _ _ _ Hsort) as [Hin Hmin].
      assert (Hcheap : cheapest_match sorData (p_name p) e).
      { split; [now apply Hsame|]. intros m Hm. apply Hmin. now apply Hsame. }
      exists e. eexists. split; [exact Hrun|]. split; [exact Hcheap|].
      destruct Hcheap as [_ Hle].
      pose proof (Hle a Ha) as Hea. pose proof (Hle b Hb) as Heb.
      destruct (Qlt_le_dec (rate e) (rate a)) as [Hlt|Hge]; [now left|].
      right. apply Qle_lteq in Heb as [Hlt|Heq]; [exact Hlt|].
      exfalso. apply Hab. rewrite <- Heq. apply Qle_antisym; assumption. }
  split; [exact Hstep|].
  intros parsed n t out t' Hn Hrun.
  destruct (Forall2_at _ _ _ (handleProcess_items _ _ _ _ _ Hrun) n p Hn)
    as (item & Hitem & uuid & t1 & t2 & Hbody).
  destruct (Hstep uuid t1) as (e & st & Hbody' & Hcheap & Hlt).
  rewrite Hbody' in Hbody. injection Hbody as <- _.
  exists (with_match (TenderProcessor.initial_of uuid p) st e), e.
  split; [exact Hitem|]. split; [reflexivity|]. split; assumption.
Qed.

Lemma handleProcess_selects_cheapest_witness :
  let W := Reference.scripted_world true [] true in
  let R := Reference.reference_runtime in
  let p := mkParsed "10HP PUMP" None "supply" None in
  let reordered := [Reference.cable; Reference.pump_cheap; Reference.pump_dear] in
  Permutation Reference.catalog reordered
  /\ In Reference.pump_dear (TenderProcessor.exactMatches Reference.catalog (p_name p))
  /\ In Reference.pump_cheap (TenderProcessor.exactMatches Reference.catalog (p_name p))
  /\ ~ rate Reference.pump_dear == rate Reference.pump_cheap
  /\ (exists e st,
        TenderProcessor.matchTenderItem reordered
          (TenderProcessor.initial_of "uuid-0" p) Reference.start
        = (Return (with_match (TenderProcessor.initial_of "uuid-0" p) st e), Reference.start)
        /\ cheapest_match Reference.catalog (p_name p) e
        /\ (rate e < rate Reference.pump_dear \/ rate e < rate Reference.pump_cheap))
  /\ fst (TenderProcessor.matchTenderItem reordered
            (TenderProcessor.initial_of "uuid-0" p) Reference.start)
     = Return (mkTender "uuid-0" "10HP PUMP" 1 "supply" None
                        (Some Reference.pump_cheap) review)
  /\ fst (TenderProcessor.matchTenderItem Reference.catalog
            (TenderProcessor.initial_of "uuid-0" p) Reference.start)
     = Return (mkTender "uuid-0" "10HP PUMP" 1 "supply" None
                        (Some Reference.pump_cheap) review).
Proof.
  intros W R p reordered.
  assert (Hperm : Permutation Reference.catalog reordered).
  { unfold Reference.catalog, reordered.
    eapply perm_trans; [apply perm_skip, perm_swap|].
    eapply perm_trans; [apply perm_swap|].
    apply perm_skip, perm_swap. }
  assert (Ha : In Reference.pump_dear
                  (TenderProcessor.exactMatches Reference.catalog (p_name p)))
    by (vm_compute; tauto).
  assert (Hb : In Reference.pump_cheap
                  (TenderProcessor.exactMatches Reference.catalog (p_name p)))
    by (vm_compute; tauto).
  assert (Hab : ~ rate Reference.pump_dear == rate Reference.pump_cheap) by discriminate.
  split; [exact Hperm|]. split; [exact Ha|]. split; [exact Hb|]. split; [exact Hab|].
  split; [|split; reflexivity].
  exact (proj1 (handleProcess_selects_cheapest Reference.catalog reordered p _ _
                  Hperm Ha Hb Hab) "uuid-0" Reference.start).
Defined.

Section PassFacts.
Context {W : World} {R : Runtime}.

(** What the loop body pushes for a pending item without a matched rate: the
    item with a matched rate and status [matched] or [review], or the item
    as it was with status [no_match]. *)
Lemma matchTenderItem_shape (sorData : list SORItem) (tenderItem item : TenderItem)
    (t t' : Trace) :
  TenderProcessor.matchTenderItem sorData tenderItem t = (Return item, t') ->
  (exists e st, item = with_match tenderItem st e /\ (st = matched \/ st = review))
  \/ item = with_status tenderItem no_match.
Proof.
  intros Hrun.
  destruct (TenderProcessor.exactMatches sorData (name tenderItem)) as [|m ms] eqn:Hm.
  - destruct (matchTenderItem_semantic_inv _ _ _ _ _ Hm Hrun) as (v & _ & ->).
    destruct (resolves sorData v) as [e|]; [left | now right].
    exists e, review. split; [reflexivity | now right].
  - destruct (matchTenderItem_exact sorData tenderItem t) as (e & rest & _ & Hrun').
    + rewrite Hm. discriminate.
    + rewrite Hrun' in Hrun. injection Hrun as <- _. left.
      exists e. eexists. split; [reflexivity|].
      destruct (TenderProcessor.isScopeIdentical e tenderItem); [now left | now right].
Qed.

Lemma processParsed_run (sorData : list SORItem) (p : ParsedItem) (t t' : Trace) (v : Json) :
  AppService.findBestMatchingItem (p_name p) (p_requestedScope p) (summary sorData) t
  = (Return v, t') ->
  App.processParsed sorData p t
  = (Return (mkTender (randomUUID_value (uuids_drawn t')) (p_name p)
                      (number_or (p_quantity p) 1) (p_requestedScope p)
                      (p_estimatedRate p) (resolves sorData v)
                      (match resolves sorData v with
                       | Some _ => matched
                       | None => no_match
                       end)),
     mkTrace (remote_calls t') (S (uuids_drawn t')) (dialogs t')).
Proof.
  intros Hcall. unfold App.processParsed. fold (summary sorData).
  unfold bind at 1. rewrite Hcall. reflexivity.
Qed.
End PassFacts.

(** C9.  The items of a completed pass stand one for each parsed record, in
    the order of the records, with the record's name, requested scope and
    estimated rate; each has status [matched], [review] or [no_match], none
    is [pending], and it has a matched rate exactly when its status is not
    [no_match]. *)
Theorem handleProcess_output_invariant {W : World} {R : Runtime}
    (sorData : list SORItem) (parsed : list ParsedItem) (t t' : Trace)
    (out : list TenderItem) :
  TenderProcessor.handleProcess sorData parsed t = (Return out, t') ->
  Forall2 (fun p item =>
             name item = p_name p
             /\ requestedScope item = p_requestedScope p
             /\ estimatedRate item = p_estimatedRate p
             /\ (status item = matched \/ status item = review \/ status item = no_match)
             /\ status item <> pending
             /\ (matchedRate item <> None <-> status item <> no_match))
          parsed out
  /\ List.length out = List.length parsed.
Proof.
  intros Hrun. pose proof (handleProcess_items _ _ _ _ _ Hrun) as Hitems.
  split; [|symmetry; exact (Forall2_length Hitems)].
  eapply Forall2_impl; [|exact Hitems].
  intros p item (uuid & t1 & t2 & Hbody).
  destruct (matchTenderItem_shape _ _ _ _ _ Hbody) as [(e & st & -> & Hst) | ->];
    cbn [with_match with_status TenderProcessor.initial_of
         name requestedScope estimatedRate status matchedRate].
  - repeat split; try discriminate.
    + destruct Hst as [-> | ->]; tauto.
    + destruct Hst as [-> | ->]; discriminate.
    + destruct Hst as [-> | ->]; discriminate.
  - repeat split; try discriminate; try tauto.
Qed.

Lemma handleProcess_output_invariant_witness :
  let W := Reference.scripted_world true
             [Responds (Some (Reference.matchedId_text "s3")); Rejects] true in
  let R := Reference.reference_runtime in
  let parsed := [ mkParsed "10HP PUMP" None " supply ONLY " (Some 100);
                  mkParsed "cu cable" (Some 3) "x" None;
                  mkParsed "valve" (Some 0) "y" None ] in
  let out := [ mkTender "uuid-0" "10HP PUMP" 1 " supply ONLY " (Some 100)
                        (Some Reference.pump_cheap) matched;
               mkTender "uuid-1" "cu cable" 3 "x" None (Some Reference.cable) review;
               mkTender "uuid-2" "valve" 1 "y" None None no_match ] in
  let final := mkTrace [ mkRequest "gemini-3-pro-preview" "cu cable" "x"
                                   (summary Reference.catalog);
                         mkRequest "gemini-3-pro-preview" "valve" "y"
                                   (summary Reference.catalog) ] 3 [] in
  TenderProcessor.handleProcess Reference.catalog parsed Reference.start
  = (Return out, final)
  /\ List.length out = List.length parsed.
Proof.
  intros W R parsed out final.
  assert (Hrun : TenderProcessor.handleProcess Reference.catalog parsed Reference.start
                 = (Return out, final)) by reflexivity.
  split; [exact Hrun|].
  exact (proj2 (handleProcess_output_invariant Reference.catalog parsed
                  Reference.start final out Hrun)).
Defined.

(** C1, on the two passes.  For a record without an entry of its name in
    the catalog: in the tender processor, when the service returns an
    identifier that resolves to an entry, the loop body returns the item with
    status [review] and that entry as matched rate, and in every completed
    pass the item at the record's position is what the answer of the service
    for it resolves to, under status [review]; in the application file, whose
    pass has no step on names and never assigns [review], the item pushed for
    such an answer has that entry as matched rate too, but status
    [matched]. *)
Theorem semantic_match_status {W : World} {R : Runtime}
    (sorData : list SORItem) (p : ParsedItem) :
  TenderProcessor.exactMatches sorData (p_name p) = [] ->
  (forall uuid t v t' e,
     GeminiService.findBestMatchingItem (p_name p) (p_requestedScope p)
                                        (summary sorData) t = (Return v, t') ->
     resolves sorData v = Some e ->
     TenderProcessor.matchTenderItem sorData (TenderProcessor.initial_of uuid p) t
     = (Return (with_match (TenderProcessor.initial_of uuid p) review e), t'))
  /\ (forall parsed n t out t',
        nth_error parsed n = Some p ->
        TenderProcessor.handleProcess sorData parsed t = (Return out, t') ->
        exists item v t1 t2,
          nth_error out n = Some item
          /\ GeminiService.findBestMatchingItem (p_name p) (p_requestedScope p)
                                                (summary sorData) t1 = (Return v, t2)
          /\ forall e, resolves sorData v = Some e ->
                       status item = review /\ matchedRate item = Some e)
  /\ (forall t v t' e,
        AppService.findBestMatchingItem (p_name p) (p_requestedScope p)
                                        (summary sorData) t = (Return v, t') ->
        resolves sorData v = Some e ->
        exists item t'',
          App.processParsed sorData p t = (Return item, t'')
          /\ status item = matched /\ matchedRate item = Some e).
Proof.
  intros Hnone. split; [|split].
  - intros uuid t v t' e Hcall Hres.
    rewrite (matchTenderItem_semantic sorData (TenderProcessor.initial_of uuid p) t t' v);
      [now rewrite Hres | exact Hnone | exact Hcall].
  - intros parsed n t out t' Hn Hrun.
    destruct (Forall2_at _ _ _ (handleProcess_items _ _ _ _ _ Hrun) n p Hn)
      as (item & Hitem & uuid & t1 & t2 & Hbody).
    destruct (matchTenderItem_semantic_inv sorData (TenderProcessor.initial_of uuid p)
                item t1 t2 Hnone Hbody) as (v & Hcall & ->).
    eexists _, v, t1, t2. split; [exact Hitem|]. split; [exact Hcall|].
    intros e ->. split; reflexivity.
  - intros t v t' e Hcall Hres.
    rewrite (processParsed_run sorData p t t' v Hcall), Hres.
    eexists _, _. split; [reflexivity|]. split; reflexivity.
Qed.

Lemma semantic_match_status_witness :
  let W := Reference.scripted_world true
             [Responds (Some (Reference.matchedId_text "s3"))] true in
  let R := Reference.reference_runtime in
  let p := mkParsed "cu cable" (Some 3) "x" None in
  let issued := mkTrace [ mkRequest "gemini-3-pro-preview" "cu cable" "x"
                                    (summary Reference.catalog) ] 0 [] in
  TenderProcessor.exactMatches Reference.catalog (p_name p) = []
  /\ GeminiService.findBestMatchingItem (p_name p) (p_requestedScope p)
       (summary Reference.catalog) Reference.start = (Return (JStr "s3"), issued)
  /\ resolves Reference.catalog (JStr "s3") = Some Reference.cable
  /\ TenderProcessor.matchTenderItem Reference.catalog
       (TenderProcessor.initial_of "uuid-0" p) Reference.start
     = (Return (mkTender "uuid-0" "cu cable" 3 "x" None (Some Reference.cable) review),
        issued).
Proof.
  intros W R p issued.
  assert (Hnone : TenderProcessor.exactMatches Reference.catalog (p_name p) = [])
    by reflexivity.
  assert (Hcall : GeminiService.findBestMatchingItem (p_name p) (p_requestedScope p)
                    (summary Reference.catalog) Reference.start
                  = (Return (JStr "s3"), issued)) by reflexivity.
  assert (Hres : resolves Reference.catalog (JStr "s3") = Some Reference.cable)
    by reflexivity.
  split; [exact Hnone|]. split; [exact Hcall|]. split; [exact Hres|].
  exact (proj1 (semantic_match_status Reference.catalog p Hnone)
           "uuid-0" Reference.start (JStr "s3") issued Reference.cable Hcall Hres).
Defined.

(** The pass of the application file on a record without an entry of its
    name in the catalog and an answer of the service that resolves to the
    cable entry: [handleProcessTender] yields the item with status
    [matched], which is not [review]. *)
Lemma handleProcessTender_semantic_match_is_matched :
  let W := Reference.scripted_world true
             [Responds (Some (Reference.matchedId_text "s3"))] true in
  let R := Reference.reference_runtime in
  let p := mkParsed "cu cable" (Some 3) "x" None in
  let issued := mkTrace [ mkRequest "gemini-3-pro-preview" "cu cable" "x"
                                    (summary Reference.catalog) ] 0 [] in
  TenderProcessor.exactMatches Reference.catalog (p_name p) = []
  /\ AppService.findBestMatchingItem (p_name p) (p_requestedScope p)
       (summary Reference.catalog) Reference.start = (Return (JStr "s3"), issued)
  /\ resolves Reference.catalog (JStr "s3") = Some Reference.cable
  /\ App.handleProcessTender Reference.catalog [p] Reference.start
     = (Return [mkTender "uuid-0" "cu cable" 3 "x" None (Some Reference.cable) matched],
        mkTrace (remote_calls issued) 1 [])
  /\ Status_eqb matched review = false.
Proof.
  intros W R p issued. repeat split.
Qed.

(** * Second part: the rest of the program *)

(** ** The tender list: removing, accepting, totals *)

Lemma lineTotal_with_status (i : TenderItem) (st : Status) :
  TenderView.lineTotal (with_status i st) = TenderView.lineTotal i.
Proof. reflexivity. Qed.

Lemma grandTotal_from (items : list TenderItem) (acc : number) :
  fold_left (fun sum item => sum + TenderView.lineTotal item) items acc
  == acc + TenderView.grandTotal items.
Proof.
  unfold TenderView.grandTotal. revert acc.
  induction items as [|i items IH]; intros acc; simpl.
  - lra.
  - rewrite (IH (acc + TenderView.lineTotal i)), (IH (0 + TenderView.lineTotal i)). lra.
Qed.

Lemma matchesCount_app (l1 l2 : list TenderItem) :
  TenderView.matchesCount (l1 ++ l2)
  = (TenderView.matchesCount l1 + TenderView.matchesCount l2)%nat.
Proof.
  unfold TenderView.matchesCount. now rewrite filter_app, length_app.
Qed.

Lemma acceptMatch_other_ids (item_id : string) (l : list TenderItem) :
  ~ In item_id (map id l) -> TenderProcessor.acceptMatch item_id l = l.
Proof.
  unfold TenderProcessor.acceptMatch.
  induction l as [|i l IH]; simpl; intros Hnot; [reflexivity|].
  destruct (String.eqb (id i) item_id) eqn:Hid.
  - apply String.eqb_eq in Hid. exfalso. apply Hnot. now left.
  - rewrite IH; [reflexivity|]. intros Hin. apply Hnot. now right.
Qed.

(** X1.  The remove button of the tender list takes out every item carrying
    the identifier and no other: what is left are the items with another
    identifier, in the order they had; removing twice is removing once,
    removals commute with each other and with accepting, and removing an
    identifier the list does not hold changes nothing. *)
Theorem removeItem_spec (item_id : string) (prev : list TenderItem) :
  (forall i, In i (TenderView.removeItem item_id prev) <-> In i prev /\ id i <> item_id)
  /\ (forall l1 l2, prev = (l1 ++ l2)%list ->
        TenderView.removeItem item_id prev
        = (TenderView.removeItem item_id l1 ++ TenderView.removeItem item_id l2)%list)
  /\ TenderView.removeItem item_id (TenderView.removeItem item_id prev)
     = TenderView.removeItem item_id prev
  /\ (forall other,
        TenderView.removeItem item_id (TenderView.removeItem other prev)
        = TenderView.removeItem other (TenderView.removeItem item_id prev))
  /\ (forall accepted,
        TenderView.removeItem item_id (TenderProcessor.acceptMatch accepted prev)
        = TenderProcessor.acceptMatch accepted (TenderView.removeItem item_id prev))
  /\ (~ In item_id (map id prev) -> TenderView.removeItem item_id prev = prev)
  /\ (List.length (TenderView.removeItem item_id prev) <= List.length prev)%nat.
Proof.
  unfold TenderView.removeItem. repeat split.
  - apply filter_In in H. tauto.
  - apply filter_In in H as [_ H]. apply negb_true_iff, String.eqb_neq in H. exact H.
  - intros [Hin Hid]. apply filter_In. split; [exact Hin|].
    now apply negb_true_iff, String.eqb_neq.
  - intros l1 l2 ->. apply filter_app.
  - induction prev as [|i l IH]; simpl; [reflexivity|].
    destruct (String.eqb (id i) item_id) eqn:Hid; simpl; [exact IH|].
    rewrite Hid. simpl. now rewrite IH.
  - intros other. induction prev as [|i l IH]; simpl; [reflexivity|].
    destruct (String.eqb (id i) other) eqn:Ho, (String.eqb (id i) item_id) eqn:Hi;
      simpl; rewrite ?Ho, ?Hi; simpl; now rewrite ?IH.
  - intros accepted. unfold TenderProcessor.acceptMatch.
    induction prev as [|i l IH]; simpl; [reflexivity|].
    destruct (String.eqb (id i) accepted) eqn:Ha, (String.eqb (id i) item_id) eqn:Hi;
      simpl; rewrite ?Ha, ?Hi; simpl; now rewrite ?IH.
  - induction prev as [|i l IH]; simpl; intros Hnot; [reflexivity|].
    destruct (String.eqb (id i) item_id) eqn:Hid.
    + apply String.eqb_eq in Hid. exfalso. apply Hnot. now left.
    + simpl. rewrite IH; [reflexivity|]. intros Hin. apply Hnot. now right.
  - apply filter_length_le.
Qed.

Lemma removeItem_spec_witness :
  let suggested := mkTender "t1" "cu cable" 3 "x" None (Some Reference.cable) review in
  let settled := mkTender "t2" "10hp pump" 1 "y" None (Some Reference.pump_cheap) matched in
  ~ In "t9" (map id [suggested; settled])
  /\ TenderView.removeItem "t9" [suggested; settled] = [suggested; settled]
  /\ TenderView.removeItem "t1" [suggested; settled] = [settled].
Proof.
  intros suggested settled.
  assert (Hnot : ~ In "t9" (map id [suggested; settled])).
  { simpl. intros [H|[H|[]]]; discriminate. }
  split; [exact Hnot|]. split; [|reflexivity].
  destruct (removeItem_spec "t9" [suggested; settled]) as (_ & _ & _ & _ & _ & H & _).
  exact (H Hnot).
Defined.

(** X2.  Accepting a match leaves the grand total of the summary as it was
    and never lowers the number of matches; where identifiers are unique and
    the accepted item was not yet [matched], the number of matches grows by
    exactly one. *)
Theorem acceptMatch_summary (item_id : string) (items : list TenderItem) :
  TenderView.grandTotal (TenderProcessor.acceptMatch item_id items)
  = TenderView.grandTotal items
  /\ (TenderView.matchesCount items
      <= TenderView.matchesCount (TenderProcessor.acceptMatch item_id items))%nat
  /\ (NoDup (map id items) ->
      forall target, In target items -> id target = item_id -> status target <> matched ->
      TenderView.matchesCount (TenderProcessor.acceptMatch item_id items)
      = S (TenderView.matchesCount items)).
Proof.
  split; [|split].
  - unfold TenderView.grandTotal, TenderProcessor.acceptMatch.
    generalize 0. induction items as [|i l IH]; intros acc; simpl; [reflexivity|].
    destruct (String.eqb (id i) item_id); [rewrite lineTotal_with_status|]; apply IH.
  - unfold TenderView.matchesCount, TenderProcessor.acceptMatch.
    induction items as [|i l IH]; simpl; [lia|].
    destruct (String.eqb (id i) item_id); simpl.
    + destruct (Status_eqb (status i) matched); simpl; lia.
    + destruct (Status_eqb (status i) matched); simpl; lia.
  - intros Hnd target Hin Hid Hst.
    apply in_split in Hin as (l1 & l2 & ->).
    rewrite map_app in Hnd. cbn [map] in Hnd.
    pose proof (NoDup_remove_2 _ _ _ Hnd) as Hnot.
    rewrite Hid in Hnot.
    assert (H1 : ~ In item_id (map id l1)) by (intros H; apply Hnot, in_or_app; now left).
    assert (H2 : ~ In item_id (map id l2)) by (intros H; apply Hnot, in_or_app; now right).
    assert (Hsplit : TenderProcessor.acceptMatch item_id (l1 ++ target :: l2)
                     = (l1 ++ with_status target matched :: l2)%list).
    { unfold TenderProcessor.acceptMatch. rewrite map_app. cbn [map].
      fold (TenderProcessor.acceptMatch item_id l1).
      fold (TenderProcessor.acceptMatch item_id l2).
      rewrite (acceptMatch_other_ids _ _ H1), (acceptMatch_other_ids _ _ H2).
      apply String.eqb_eq in Hid. now rewrite Hid. }
    rewrite Hsplit, !matchesCount_app.
    change (with_status target matched :: l2)
      with ([with_status target matched] ++ l2)%list.
    change (target :: l2) with ([target] ++ l2)%list.
    rewrite !matchesCount_app.
    assert (Hold : TenderView.matchesCount [target] = 0%nat).
    { unfold TenderView.matchesCount. simpl.
      destruct (status target); try reflexivity. contradiction. }
    rewrite Hold. unfold TenderView.matchesCount at 2. simpl. lia.
Qed.

Lemma acceptMatch_summary_witness :
  let suggested := mkTender "t1" "cu cable" 3 "x" None (Some Reference.cable) review in
  let settled := mkTender "t2" "10hp pump" 1 "y" None (Some Reference.pump_cheap) matched in
  let items := [suggested; settled] in
  NoDup (map id items) /\ In suggested items /\ status suggested <> matched
  /\ TenderView.matchesCount items = 1%nat
  /\ TenderView.matchesCount (TenderProcessor.acceptMatch "t1" items) = 2%nat
  /\ TenderView.matchesCount (TenderProcessor.acceptMatch "t1" items)
     = S (TenderView.matchesCount items).
Proof.
  intros suggested settled items.
  assert (Hnd : NoDup (map id items)).
  { simpl. constructor; [intros [H|[]]; discriminate|].
    constructor; [intros []|constructor]. }
  assert (Hin : In suggested items) by now left.
  assert (Hst : status suggested <> matched) by discriminate.
  split; [exact Hnd|]. split; [exact Hin|]. split; [exact Hst|].
  split; [reflexivity|]. split; [reflexivity|].
  exact (proj2 (proj2 (acceptMatch_summary "t1" items)) Hnd suggested Hin eq_refl Hst).
Defined.

(** X3.  An item without a matched rate, or with a matched rate of zero,
    adds nothing to the grand total: the total is the total of the items
    whose quoted rate is not zero, and it is zero when no item has one. *)
Theorem grandTotal_ignores_unquoted (items : list TenderItem) :
  let quoted := fun i => truthy_number (number_or (option_map rate (matchedRate i)) 0) in
  TenderView.grandTotal items == TenderView.grandTotal (filter quoted items)
  /\ ((forall i, In i items -> matchedRate i = None) -> TenderView.grandTotal items == 0).
Proof.
  cbv zeta.
  assert (Hzero : forall i,
             truthy_number (number_or (option_map rate (matchedRate i)) 0) = false ->
             TenderView.lineTotal i == 0).
  { intros i H. unfold TenderView.lineTotal.
    unfold truthy_number in H. apply negb_false_iff, Qeq_bool_iff in H.
    rewrite H. lra. }
  split.
  - induction items as [|i l IH]; [reflexivity|].
    unfold TenderView.grandTotal at 1. cbn [fold_left filter].
    rewrite grandTotal_from.
    destruct (truthy_number (number_or (option_map rate (matchedRate i)) 0)) eqn:Hq.
    + unfold TenderView.grandTotal at 2. cbn [fold_left]. rewrite grandTotal_from.
      rewrite IH. reflexivity.
    + rewrite (Hzero i Hq), IH. lra.
  - intros Hall. induction items as [|i l IH]; [reflexivity|].
    unfold TenderView.grandTotal. cbn [fold_left]. rewrite grandTotal_from.
    rewrite IH by (intros j Hj; apply Hall; now right).
    rewrite (Hzero i); [lra|].
    rewrite (Hall i (or_introl eq_refl)). reflexivity.
Qed.

Lemma grandTotal_ignores_unquoted_witness :
  let unmatched := mkTender "t3" "valve" 7 "z" (Some 100) None no_match in
  let settled := mkTender "t2" "10hp pump" 2 "y" None (Some Reference.pump_cheap) matched in
  (forall i, In i [unmatched] -> matchedRate i = None)
  /\ TenderView.grandTotal [unmatched] == 0
  /\ TenderView.grandTotal [unmatched; settled; unmatched] == 8400.
Proof.
  intros unmatched settled.
  assert (Hall : forall i, In i [unmatched] -> matchedRate i = None).
  { intros i [<-|[]]. reflexivity. }
  split; [exact Hall|]. split; [|reflexivity].
  exact (proj2 (grandTotal_ignores_unquoted [unmatched]) Hall).
Defined.

(** ** The search *)

Lemma strip_prefix_app (p s : string) : strip_prefix p (p ++ s) = Some s.
Proof.
  induction p as [|a p IH]; simpl; [now destruct s | now rewrite Ascii.eqb_refl].
Qed.

Lemma strip_prefix_Some (p s r : string) : strip_prefix p s = Some r -> s = p ++ r.
Proof.
  revert s. induction p as [|a p IH]; intros s; simpl.
  - destruct s; intros H; now injection H as <-.
  - destruct s as [|b s]; [discriminate|].
    destruct (Ascii.eqb a b) eqn:Hab; [|discriminate].
    apply Ascii.eqb_eq in Hab. subst b. intros H. now rewrite (IH s H).
Qed.

(** [includes] holds exactly of the texts that have [sub] somewhere inside. *)
Lemma includes_iff (s sub : string) :
  includes s sub = true <-> exists before after, s = before ++ sub ++ after.
Proof.
  split.
  - induction s as [|x s IH]; cbn [includes].
    + destruct (strip_prefix sub EmptyString) as [r|] eqn:Hp; [|discriminate].
      intros _. exists EmptyString, r. exact (strip_prefix_Some _ _ _ Hp).
    + destruct (strip_prefix sub (String x s)) as [r|] eqn:Hp.
      * intros _. exists EmptyString, r. exact (strip_prefix_Some _ _ _ Hp).
      * intros H. destruct (IH H) as (before & after & ->).
        now exists (String x before), after.
  - intros (before & after & ->).
    induction before as [|x before IH].
    + simpl. destruct sub as [|c sub]; simpl.
      * now destruct after.
      * now rewrite Ascii.eqb_refl, strip_prefix_app.
    + cbn [append includes].
      destruct (strip_prefix sub (String x (before ++ sub ++ after))); [reflexivity|exact IH].
Qed.

Lemma includes_self (s : string) : includes s s = true.
Proof.
  apply includes_iff. exists EmptyString, EmptyString. simpl. now rewrite append_empty.
Qed.

Lemma includes_empty (s : string) : includes s EmptyString = true.
Proof.
  apply includes_iff. now exists EmptyString, s.
Qed.

(** X4.  The search keeps the entries whose lower-cased name or source has
    the lower-cased query inside, in catalog order: an entry is found by its
    own name and by its own source, in any letter case the runtime folds to
    the same text, and where lower-casing the empty text gives the empty
    text the empty query finds the whole catalog. *)
Theorem filteredRates_spec {R : Runtime} (sorData : list SORItem) (searchQuery : string) :
  (forall i, In i (Catalog.filteredRates sorData searchQuery) <->
     In i sorData
     /\ ((exists before after,
            toLowerCase (sor_name i) = before ++ toLowerCase searchQuery ++ after)
         \/ (exists before after,
               toLowerCase (source i) = before ++ toLowerCase searchQuery ++ after)))
  /\ (forall l1 l2, sorData = (l1 ++ l2)%list ->
        Catalog.filteredRates sorData searchQuery
        = (Catalog.filteredRates l1 searchQuery ++ Catalog.filteredRates l2 searchQuery)%list)
  /\ (forall i, In i sorData ->
        (toLowerCase searchQuery = toLowerCase (sor_name i)
         \/ toLowerCase searchQuery = toLowerCase (source i)) ->
        In i (Catalog.filteredRates sorData searchQuery))
  /\ (toLowerCase EmptyString = EmptyString ->
      Catalog.filteredRates sorData EmptyString = sorData).
Proof.
  unfold Catalog.filteredRates. split; [|split; [|split]].
  - intros i. rewrite filter_In, orb_true_iff, !includes_iff. tauto.
  - intros l1 l2 ->. apply filter_app.
  - intros i Hin Hq. apply filter_In. split; [exact Hin|].
    apply orb_true_iff. destruct Hq as [-> | ->]; [left | right]; apply includes_self.
  - intros Hlow. rewrite Hlow.
    induction sorData as [|i l IH]; simpl; [reflexivity|].
    now rewrite includes_empty, IH.
Qed.

Lemma filteredRates_spec_witness :
  let R := Reference.reference_runtime in
  toLowerCase EmptyString = EmptyString
  /\ Catalog.filteredRates Reference.catalog EmptyString = Reference.catalog
  /\ Catalog.filteredRates Reference.catalog "PUMP"
     = [Reference.pump_dear; Reference.pump_cheap]
  /\ Catalog.filteredRates Reference.catalog "dsr" = [Reference.cable]
  /\ Catalog.filteredRates Reference.catalog "valve" = [].
Proof.
  intros R.
  split; [reflexivity|]. split; [|repeat split].
  destruct (filteredRates_spec Reference.catalog EmptyString) as (_ & _ & _ & H).
  exact (H eq_refl).
Defined.

(** ** The catalog *)

Lemma filter_filter_same {A} (f g : A -> bool) (l : list A) :
  (forall x, In x l -> f x = true -> g x = true) ->
  filter f (filter g l) = filter f l.
Proof.
  induction l as [|x l IH]; simpl; intros H; [reflexivity|].
  destruct (g x) eqn:Hg; simpl.
  - rewrite IH; [reflexivity|]. intros y Hy. apply H. now right.
  - destruct (f x) eqn:Hf.
    + rewrite (H x (or_introl eq_refl) Hf) in Hg. discriminate.
    + apply IH. intros y Hy. apply H. now right.
Qed.

Lemma NoDup_map_filter {A B} (f : A -> B) (g : A -> bool) (l : list A) :
  NoDup (map f l) -> NoDup (map f (filter g l)).
Proof.
  induction l as [|x l IH]; simpl; intros H; [constructor|].
  inversion H as [|? ? Hnot Hnd]; subst.
  destruct (g x); [|now apply IH].
  simpl. constructor; [|now apply IH].
  intros Hin. apply Hnot.
  apply in_map_iff in Hin as (y & Hy & Hin). apply filter_In in Hin as [Hin _].
  apply in_map_iff. eauto.
Qed.

(** X5.  Deleting from the catalog takes out every entry carrying the
    identifier and no other, in the order they had; it is idempotent, keeps
    identifiers unique, leaves the form as it is, and leaves the benchmark
    flag of every entry whose name, letter case apart, none of the deleted
    entries shares. *)
Theorem onDelete_spec {R : Runtime} (id : string) (st : Catalog.State) :
  (forall i, In i (Catalog.sorData (Catalog.onDelete id st)) <->
     In i (Catalog.sorData st) /\ sor_id i <> id)
  /\ (forall l1 l2 e f,
        Catalog.sorData (Catalog.onDelete id (Catalog.mkState (l1 ++ l2) e f))
        = (Catalog.sorData (Catalog.onDelete id (Catalog.mkState l1 e f))
           ++ Catalog.sorData (Catalog.onDelete id (Catalog.mkState l2 e f)))%list)
  /\ Catalog.onDelete id (Catalog.onDelete id st) = Catalog.onDelete id st
  /\ (NoDup (map sor_id (Catalog.sorData st)) ->
      NoDup (map sor_id (Catalog.sorData (Catalog.onDelete id st))))
  /\ (forall item,
        (forall d, In d (Catalog.sorData st) -> sor_id d = id ->
                   toLowerCase (sor_name d) <> toLowerCase (sor_name item)) ->
        RateList.isLowest (Catalog.sorData (Catalog.onDelete id st)) item
        = RateList.isLowest (Catalog.sorData st) item)
  /\ Catalog.editingItem (Catalog.onDelete id st) = Catalog.editingItem st
  /\ Catalog.isFormOpen (Catalog.onDelete id st) = Catalog.isFormOpen st.
Proof.
  destruct st as [l e f]. unfold Catalog.onDelete. cbn [Catalog.sorData Catalog.editingItem
                                                        Catalog.isFormOpen].
  split; [|split; [|split; [|split; [|split; [|split]]]]]; try reflexivity.
  - intros i. rewrite filter_In, negb_true_iff, String.eqb_neq. tauto.
  - intros l1 l2 _ _. apply filter_app.
  - f_equal. apply filter_filter_same. intros x _ H. exact H.
  - apply NoDup_map_filter.
  - intros item Hother. unfold RateList.isLowest, RateList.sameItems.
    rewrite filter_filter_same; [reflexivity|].
    intros d Hd Hname. apply negb_true_iff, String.eqb_neq. intros Hid.
    apply String.eqb_eq in Hname. exact (Hother d Hd Hid Hname).
Qed.

Lemma onDelete_spec_witness :
  let R := Reference.reference_runtime in
  let st := Catalog.mkState Reference.catalog None false in
  NoDup (map sor_id (Catalog.sorData st))
  /\ NoDup (map sor_id (Catalog.sorData (Catalog.onDelete "s3" st)))
  /\ Catalog.sorData (Catalog.onDelete "s3" st) = [Reference.pump_dear; Reference.pump_cheap]
  /\ RateList.isLowest (Catalog.sorData (Catalog.onDelete "s3" st)) Reference.pump_cheap = true.
Proof.
  intros R st.
  assert (Hnd : NoDup (map sor_id (Catalog.sorData st))).
  { simpl. constructor; [intros [H|[H|[]]]; discriminate|].
    constructor; [intros [H|[]]; discriminate|].
    constructor; [intros []|constructor]. }
  split; [exact Hnd|]. split; [|split; reflexivity].
  destruct (onDelete_spec "s3" st) as (_ & _ & _ & H & _).
  exact (H Hnd).
Defined.

Section CatalogFacts.
Context {W : World} {R : Runtime} {C : Clock}.

Lemma stamp_run (i : NewRate) (t : Trace) :
  (uuid <- randomUUID ;; now <- Date_now ;; ret (stamped i uuid now)) t
  = (let t' := mkTrace (remote_calls t) (S (uuids_drawn t)) (dialogs t) in
     (Return (stamped i (randomUUID_value (uuids_drawn t)) (Date_now_value t')), t')).
Proof. reflexivity. Qed.

(** What the stamping loop of the bulk import returns. *)
Lemma stamp_all_run (items : list NewRate) :
  forall t, exists added,
    for_push (fun i => uuid <- randomUUID ;; now <- Date_now ;; ret (stamped i uuid now))
             items t
    = (Return added,
       mkTrace (remote_calls t) (List.length items + uuids_drawn t) (dialogs t))
    /\ Forall2 (fun i e => exists uuid now, e = stamped i uuid now) items added
    /\ map sor_id added = map randomUUID_value (seq (uuids_drawn t) (List.length items)).
Proof.
  induction items as [|i items IH]; intros t.
  - exists []. simpl. split; [now destruct t|]. split; constructor.
  - destruct (IH (mkTrace (remote_calls t) (S (uuids_drawn t)) (dialogs t)))
      as (added & Hrun & Hall & Hids).
    eexists (_ :: added). cbn [for_push]. unfold bind at 1. rewrite stamp_run. cbv zeta.
    unfold bind at 1. rewrite Hrun. cbn [ret uuids_drawn remote_calls dialogs List.length].
    split; [rewrite Nat.add_succ_r; reflexivity|].
    split; [constructor; eauto|].
    cbn [map seq sor_id stamped]. now rewrite Hids.
Qed.
End CatalogFacts.

(** X6.  Saving the form while an entry is being edited calls nothing and
    draws no identifier; the catalog keeps its length, its order, and the
    identifier and timestamp at every position; the entries carrying the
    identifier of the edited entry take the values of the form, every other
    entry stays as it is, and when no entry carries that identifier the
    catalog is unchanged.  The form is closed and nothing is being edited
    afterwards. *)
Theorem handleAddOrUpdateRate_update {W : World} {R : Runtime} {C : Clock}
    (item : NewRate) (editing : SORItem) (st : Catalog.State) (t : Trace) :
  Catalog.editingItem st = Some editing ->
  exists st',
    Catalog.handleAddOrUpdateRate item st t = (Return st', t)
    /\ map sor_id (Catalog.sorData st') = map sor_id (Catalog.sorData st)
    /\ map timestamp (Catalog.sorData st') = map timestamp (Catalog.sorData st)
    /\ (forall n r, nth_error (Catalog.sorData st) n = Some r ->
          nth_error (Catalog.sorData st') n
          = Some (if String.eqb (sor_id r) (sor_id editing)
                  then stamped item (sor_id r) (timestamp r) else r))
    /\ (~ In (sor_id editing) (map sor_id (Catalog.sorData st)) ->
        Catalog.sorData st' = Catalog.sorData st)
    /\ Catalog.editingItem st' = None
    /\ Catalog.isFormOpen st' = false.
Proof.
  intros Hedit. unfold Catalog.handleAddOrUpdateRate. rewrite Hedit.
  eexists. split; [reflexivity|]. cbn [Catalog.sorData Catalog.editingItem Catalog.isFormOpen].
  split; [|split; [|split; [|split; [|split; reflexivity]]]].
  - rewrite map_map. apply map_ext. intros r.
    now destruct (String.eqb (sor_id r) (sor_id editing)).
  - rewrite map_map. apply map_ext. intros r.
    now destruct (String.eqb (sor_id r) (sor_id editing)).
  - intros n r Hn. now rewrite nth_error_map, Hn.
  - intros Hnot. induction (Catalog.sorData st) as [|r l IH]; [reflexivity|].
    cbn [map]. destruct (String.eqb (sor_id r) (sor_id editing)) eqn:Hid.
    + apply String.eqb_eq in Hid. exfalso. apply Hnot. left. exact Hid.
    + f_equal. apply IH. intros Hin. apply Hnot. now right.
Qed.

Lemma handleAddOrUpdateRate_update_witness :
  let W := Reference.scripted_world true [] true in
  let R := Reference.reference_runtime in
  let C := Build_Clock (fun _ => 9) in
  let item := mkNewRate "Cable" "m" 95 "Laying" "DSR 2024" in
  let st := Catalog.onEdit Reference.cable (Catalog.mkState Reference.catalog None false) in
  Catalog.editingItem st = Some Reference.cable
  /\ Catalog.handleAddOrUpdateRate item st Reference.start
     = (Return (Catalog.mkState
                  [Reference.pump_dear; Reference.pump_cheap;
                   mkSOR "s3" "Cable" "m" 95 "Laying" "DSR 2024" 3]
                  None false),
        Reference.start)
  /\ exists st',
       Catalog.handleAddOrUpdateRate item st Reference.start = (Return st', Reference.start)
       /\ map sor_id (Catalog.sorData st') = map sor_id (Catalog.sorData st).
Proof.
  intros W R C item st.
  split; [reflexivity|]. split; [reflexivity|].
  destruct (handleAddOrUpdateRate_update item Reference.cable st Reference.start eq_refl)
    as (st' & Hrun & Hids & _).
  exists st'. split; [exact Hrun | exact Hids].
Defined.

(** X7.  Saving the form while nothing is being edited draws one identifier,
    reads the clock once and puts the new entry, with the values of the
    form, in front of the catalog, whose entries stay as they were and in
    their order; identifiers stay unique when the identifier drawn is not in
    the catalog; the new entry is found by a search for its name; the form
    is closed afterwards. *)
Theorem handleAddOrUpdateRate_add {W : World} {R : Runtime} {C : Clock}
    (item : NewRate) (st : Catalog.State) (t : Trace) :
  Catalog.editingItem st = None ->
  let uuid := randomUUID_value (uuids_drawn t) in
  let t' := mkTrace (remote_calls t) (S (uuids_drawn t)) (dialogs t) in
  let added := stamped item uuid (Date_now_value t') in
  Catalog.handleAddOrUpdateRate item st t
  = (Return (Catalog.mkState (added :: Catalog.sorData st) None false), t')
  /\ (NoDup (map sor_id (Catalog.sorData st)) ->
      ~ In uuid (map sor_id (Catalog.sorData st)) ->
      NoDup (map sor_id (added :: Catalog.sorData st)))
  /\ In added (Catalog.filteredRates (added :: Catalog.sorData st) (new_name item)).
Proof.
  intros Hedit. cbv zeta. unfold Catalog.handleAddOrUpdateRate. rewrite Hedit.
  split; [reflexivity|]. split.
  - intros Hnd Hnot. cbn [map sor_id stamped]. now constructor.
  - unfold Catalog.filteredRates. apply filter_In. split; [now left|].
    cbn [sor_name stamped]. now rewrite includes_self.
Qed.

Lemma handleAddOrUpdateRate_add_witness :
  let W := Reference.scripted_world true [] true in
  let R := Reference.reference_runtime in
  let C := Build_Clock (fun _ => 9) in
  let item := mkNewRate "Gate Valve" "nos" 750 "Supply" "" in
  let st := Catalog.mkState Reference.catalog None true in
  Catalog.editingItem st = None
  /\ NoDup (map sor_id (Catalog.sorData st))
  /\ ~ In "uuid-0" (map sor_id (Catalog.sorData st))
  /\ Catalog.handleAddOrUpdateRate item st Reference.start
     = (Return (Catalog.mkState
                  (mkSOR "uuid-0" "Gate Valve" "nos" 750 "Supply" "" 9 :: Reference.catalog)
                  None false),
        mkTrace [] 1 [])
  /\ NoDup (map sor_id (mkSOR "uuid-0" "Gate Valve" "nos" 750 "Supply" "" 9
                        :: Reference.catalog)).
Proof.
  intros W R C item st.
  assert (Hnd : NoDup (map sor_id (Catalog.sorData st))).
  { simpl. constructor; [intros [H|[H|[]]]; discriminate|].
    constructor; [intros [H|[]]; discriminate|].
    constructor; [intros []|constructor]. }
  assert (Hnot : ~ In "uuid-0" (map sor_id (Catalog.sorData st))).
  { simpl. intros [H|[H|[H|[]]]]; discriminate. }
  destruct (handleAddOrUpdateRate_add item st Reference.start eq_refl) as (Hrun & Hids & _).
  split; [reflexivity|]. split; [exact Hnd|]. split; [exact Hnot|].
  split; [exact Hrun | exact (Hids Hnd Hnot)].
Defined.

(** X8.  The bulk import draws one identifier per extracted rate and puts the
    new entries in front of the catalog in the order of the extraction, each
    with the values of its rate and the identifier drawn for it; the
    catalog's own entries follow unchanged; an empty extraction leaves the
    catalog as it is; the form is closed and no request is issued. *)
Theorem onBulkSubmit_spec {W : World} {R : Runtime} {C : Clock}
    (items : list NewRate) (st : Catalog.State) (t : Trace) :
  exists added,
    Catalog.onBulkSubmit items st t
    = (Return (Catalog.mkState (added ++ Catalog.sorData st) (Catalog.editingItem st) false),
       mkTrace (remote_calls t) (List.length items + uuids_drawn t) (dialogs t))
    /\ Forall2 (fun i e => exists uuid now, e = stamped i uuid now) items added
    /\ map sor_id added = map randomUUID_value (seq (uuids_drawn t) (List.length items))
    /\ (items = [] -> added = []).
Proof.
  destruct (stamp_all_run items t) as (added & Hrun & Hall & Hids).
  exists added. unfold Catalog.onBulkSubmit. unfold bind at 1. rewrite Hrun.
  split; [reflexivity|]. split; [exact Hall|]. split; [exact Hids|].
  intros ->. now inversion Hall.
Qed.

Lemma onBulkSubmit_spec_witness :
  let W := Reference.scripted_world true [] true in
  let R := Reference.reference_runtime in
  let C := Build_Clock (fun t => inject_Z (Z.of_nat (uuids_drawn t))) in
  let items := [ mkNewRate "Gate Valve" "nos" 750 "Supply" "";
                 mkNewRate "Elbow" "nos" 40 "Supply" "DSR" ] in
  let st := Catalog.mkState [Reference.cable] None true in
  Catalog.onBulkSubmit items st Reference.start
  = (Return (Catalog.mkState
               [ mkSOR "uuid-0" "Gate Valve" "nos" 750 "Supply" "" 1;
                 mkSOR "uuid-1" "Elbow" "nos" 40 "Supply" "DSR" 2;
                 Reference.cable ]
               None false),
     mkTrace [] 2 [])
  /\ exists added,
       Forall2 (fun i e => exists uuid now, e = stamped i uuid now) items added
       /\ map sor_id added = ["uuid-0"; "uuid-1"].
Proof.
  intros W R C items st.
  split; [reflexivity|].
  destruct (onBulkSubmit_spec items st Reference.start) as (added & _ & Hall & Hids & _).
  exists added. split; [exact Hall | exact Hids].
Defined.

(** ** The benchmark flag across the catalog *)

Lemma filter_Permutation {A} (f : A -> bool) (l l' : list A) :
  Permutation l l' -> Permutation (filter f l) (filter f l').
Proof.
  induction 1 as [|x l l' _ IH|x y l|l l' l'' _ IH1 _ IH2]; simpl.
  - constructor.
  - destruct (f x); [now constructor | exact IH].
  - destruct (f x), (f y); try apply Permutation_refl. apply perm_swap.
  - eapply perm_trans; eassumption.
Qed.

(** X9.  Wherever two or more entries share a name, letter case apart, one of
    them carries the benchmark flag; and the flag of an entry does not
    depend on the order of the catalog. *)
Theorem isLowest_some_benchmark {R : Runtime} (allRates allRates' : list SORItem)
    (item : SORItem) :
  ((1 < List.length (RateList.sameItems allRates item))%nat ->
   exists b, In b (RateList.sameItems allRates item)
             /\ RateList.isLowest allRates b = true)
  /\ (Permutation allRates allRates' ->
      RateList.isLowest allRates' item = RateList.isLowest allRates item).
Proof.
  split.
  - intros Hlen.
    destruct (Math_min (map rate (RateList.sameItems allRates item))) as [m|] eqn:Hmin.
    + destruct (Math_min_least _ _ Hmin) as [Hin Hle].
      apply in_map_iff in Hin as (b & Hb & Hin).
      exists b. split; [exact Hin|].
      pose proof (proj1 (sameItems_In allRates item b) Hin) as [_ Hname].
      apply isLowest_iff. rewrite (sameItems_same_group allRates item b Hname).
      split; [exact Hlen|]. split.
      * exists b. split; [exact Hin | reflexivity].
      * intros e He. rewrite Hb. apply Hle. now apply in_map.
    + apply Math_min_empty in Hmin.
      destruct (RateList.sameItems allRates item); [simpl in Hlen; lia | discriminate].
  - intros Hperm. apply eq_true_iff_eq. rewrite !isLowest_iff.
    assert (Hgroup : Permutation (RateList.sameItems allRates item)
                                 (RateList.sameItems allRates' item))
      by (apply filter_Permutation, Hperm).
    rewrite (Permutation_length Hgroup). unfold group_minimum.
    assert (Hin : forall e, In e (RateList.sameItems allRates item)
                            <-> In e (RateList.sameItems allRates' item)).
    { intros e. split; apply Permutation_in; [exact Hgroup | now apply Permutation_sym]. }
    split; intros (Hlen & (e & He & Hrate) & Hall); (split; [exact Hlen|]); split.
    + exists e. split; [now apply Hin | exact Hrate].
    + intros m Hm. apply Hall. now apply Hin.
    + exists e. split; [now apply Hin | exact Hrate].
    + intros m Hm. apply Hall. now apply Hin.
Qed.

Lemma isLowest_some_benchmark_witness :
  let R := Reference.reference_runtime in
  let reordered := [Reference.cable; Reference.pump_cheap; Reference.pump_dear] in
  (1 < List.length (RateList.sameItems Reference.catalog Reference.pump_dear))%nat
  /\ Permutation Reference.catalog reordered
  /\ (exists b, In b (RateList.sameItems Reference.catalog Reference.pump_dear)
                /\ RateList.isLowest Reference.catalog b = true)
  /\ RateList.isLowest reordered Reference.pump_cheap
     = RateList.isLowest Reference.catalog Reference.pump_cheap.
Proof.
  intros R reordered.
  assert (Hlen : (1 < List.length (RateList.sameItems Reference.catalog
                                                      Reference.pump_dear))%nat)
    by (vm_compute; lia).
  assert (Hperm : Permutation Reference.catalog reordered).
  { unfold Reference.catalog, reordered.
    eapply perm_trans; [apply perm_skip, perm_swap|].
    eapply perm_trans; [apply perm_swap|].
    apply perm_skip, perm_swap. }
  split; [exact Hlen|]. split; [exact Hperm|]. split.
  - exact (proj1 (isLowest_some_benchmark Reference.catalog reordered Reference.pump_dear)
                 Hlen).
  - exact (proj2 (isLowest_some_benchmark Reference.catalog reordered Reference.pump_cheap)
                 Hperm).
Defined.

(** X10.  Adding an entry to the front of the catalog: when no entry shares
    its name, letter case apart, it carries no benchmark flag; when some do
    and it is cheaper than each of them, it carries the flag and none of
    them does; and the flag of every entry of another name stays as it
    was. *)
Theorem isLowest_after_add {R : Runtime} (allRates : list SORItem) (added : SORItem) :
  (RateList.sameItems allRates added = [] ->
   RateList.isLowest (added :: allRates) added = false)
  /\ (RateList.sameItems allRates added <> [] ->
      (forall e, In e (RateList.sameItems allRates added) -> rate added < rate e) ->
      RateList.isLowest (added :: allRates) added = true
      /\ forall e, In e (RateList.sameItems allRates added) ->
                   RateList.isLowest (added :: allRates) e = false)
  /\ (forall e, toLowerCase (sor_name e) <> toLowerCase (sor_name added) ->
        RateList.isLowest (added :: allRates) e = RateList.isLowest allRates e).
Proof.
  assert (Hgroup : RateList.sameItems (added :: allRates) added
                   = added :: RateList.sameItems allRates added).
  { unfold RateList.sameItems. cbn [filter]. now rewrite String.eqb_refl. }
  split; [|split].
  - intros Hnone. unfold RateList.isLowest. rewrite Hgroup, Hnone. reflexivity.
  - intros Hsome Hcheaper.
    assert (Hflag : RateList.isLowest (added :: allRates) added = true).
    { apply isLowest_iff. rewrite Hgroup. split.
      - destruct (RateList.sameItems allRates added); [contradiction | simpl; lia].
      - split.
        + exists added. split; [now left | reflexivity].
        + intros e [<- | He]; [lra|]. apply Qlt_le_weak. now apply Hcheaper. }
    split; [exact Hflag|].
    intros e He.
    destruct (RateList.isLowest (added :: allRates) e) eqn:Hflag_e; [|reflexivity].
    exfalso. apply isLowest_iff in Hflag_e as (_ & _ & Hall).
    pose proof (proj1 (sameItems_In allRates added e) He) as [_ Hname].
    rewrite (sameItems_same_group (added :: allRates) added e Hname), Hgroup in Hall.
    specialize (Hall added (or_introl eq_refl)).
    specialize (Hcheaper e He). lra.
  - intros e Hname. unfold RateList.isLowest, RateList.sameItems. cbn [filter].
    apply String.eqb_neq in Hname. rewrite String.eqb_sym in Hname.
    rewrite Hname. reflexivity.
Qed.

Lemma isLowest_after_add_witness :
  let R := Reference.reference_runtime in
  let added := mkSOR "s4" "10HP PUMP" "nos" 3900 "Supply" "Quote" 4 in
  RateList.sameItems Reference.catalog added <> []
  /\ (forall e, In e (RateList.sameItems Reference.catalog added) -> rate added < rate e)
  /\ RateList.isLowest (added :: Reference.catalog) added = true
  /\ RateList.isLowest (added :: Reference.catalog) Reference.pump_cheap = false.
Proof.
  intros R added.
  assert (Hsome : RateList.sameItems Reference.catalog added <> []) by discriminate.
  assert (Hcheaper : forall e, In e (RateList.sameItems Reference.catalog added) ->
                               rate added < rate e).
  { intros e He. vm_compute in He. destruct He as [<-|[<-|[]]]; reflexivity. }
  split; [exact Hsome|]. split; [exact Hcheaper|].
  destruct (proj1 (proj2 (isLowest_after_add Reference.catalog added)) Hsome Hcheaper)
    as [Hflag Hothers].
  split; [exact Hflag|]. apply Hothers. vm_compute. tauto.
Defined.

(** ** The matching passes: effects, identifiers, statuses *)

(** A loop whose body has no effect maps the body over the list. *)
Lemma for_push_pure {A B} (f : A -> M B) (g : A -> B) (xs : list A) (t : Trace) :
  (forall x, In x xs -> f x t = (Return (g x), t)) ->
  for_push f xs t = (Return (map g xs), t).
Proof.
  induction xs as [|x xs IH]; intros Hf; [reflexivity|].
  cbn [for_push map]. unfold bind at 1. rewrite (Hf x (or_introl eq_refl)).
  unfold bind at 1. rewrite IH; [reflexivity|]. intros y Hy. apply Hf. now right.
Qed.

Section PassEffects.
Context {W : World} {R : Runtime}.

Lemma initial_items_run (parsed : list ParsedItem) :
  forall t, exists items,
    for_push TenderProcessor.initialTenderItem parsed t
    = (Return items,
       mkTrace (remote_calls t) (List.length parsed + uuids_drawn t) (dialogs t))
    /\ Forall2 (fun p i => exists uuid, i = TenderProcessor.initial_of uuid p) parsed items
    /\ map id items = map randomUUID_value (seq (uuids_drawn t) (List.length parsed)).
Proof.
  induction parsed as [|p parsed IH]; intros t.
  - exists []. simpl. split; [now destruct t|]. split; constructor.
  - destruct (IH (mkTrace (remote_calls t) (S (uuids_drawn t)) (dialogs t)))
      as (items & Hrun & Hall & Hids).
    eexists (_ :: items). cbn [for_push]. unfold bind at 1.
    rewrite initialTenderItem_run. unfold bind at 1. rewrite Hrun.
    cbn [ret uuids_drawn remote_calls dialogs List.length].
    split; [rewrite Nat.add_succ_r; reflexivity|].
    split; [constructor; eauto|].
    cbn [map seq id TenderProcessor.initial_of]. now rewrite Hids.
Qed.

(** A call of the service that returns leaves the request as its only
    trace, and none for an empty summary. *)
Lemma service_trace (n s : string) (db : list (string * string)) (t t' : Trace) (v : Json) :
  GeminiService.findBestMatchingItem n s db t = (Return v, t') ->
  t' = match db with
       | [] => t
       | _ :: _ => mkTrace (remote_calls t ++ [mkRequest "gemini-3-pro-preview" n s db])
                           (uuids_drawn t) (dialogs t)
       end.
Proof.
  unfold GeminiService.findBestMatchingItem, GeminiService.getClient, new_GoogleGenAI.
  destruct db as [|d db]; [intros H; now injection H as _ <-|].
  cbn [List.length Nat.eqb].
  unfold bind, try_catch, generateContent, JSON_parse_js, get_matchedId, ret, throw.
  destruct client_constructs; [|discriminate].
  destruct generateContent_outcome as [|text]; [intros H; now injection H as _ <-|].
  destruct (JSON_parse (text_or text "{}")) as [[]|]; intros H; now injection H as _ <-.
Qed.

Lemma app_service_trace (n s : string) (db : list (string * string)) (t t' : Trace) (v : Json) :
  AppService.findBestMatchingItem n s db t = (Return v, t') ->
  t' = match db with
       | [] => t
       | _ :: _ =>
           if client_constructs
           then mkTrace (remote_calls t ++ [mkRequest "gemini-3-pro-preview" n s db])
                        (uuids_drawn t) (dialogs t)
           else t
       end.
Proof.
  unfold AppService.findBestMatchingItem, AppService.client, new_GoogleGenAI.
  destruct db as [|d db]; [intros H; now injection H as _ <-|].
  cbn [List.length Nat.eqb].
  unfold bind, try_catch, generateContent, JSON_parse_js, get_matchedId, ret, throw.
  destruct client_constructs; [|intros H; now injection H as _ <-].
  destruct generateContent_outcome as [|text]; [intros H; now injection H as _ <-|].
  destruct (JSON_parse (text_or text "{}")) as [[]|]; intros H; now injection H as _ <-.
Qed.

(** The trace of one turn of the loop: the request for the record when the
    catalog is not empty and has no entry of its name, and nothing else. *)
Lemma matchTenderItem_trace (sorData : list SORItem) (uuid : string) (p : ParsedItem)
    (item : TenderItem) (t t' : Trace) :
  TenderProcessor.matchTenderItem sorData (TenderProcessor.initial_of uuid p) t
  = (Return item, t') ->
  id item = uuid
  /\ t' = mkTrace (remote_calls t
                   ++ match sorData with
                      | [] => []
                      | _ :: _ => map (match_request sorData) (unnamed_records sorData [p])
                      end)
                  (uuids_drawn t) (dialogs t).
Proof.
  intros Hrun. unfold unnamed_records. cbn [filter].
  destruct (TenderProcessor.exactMatches sorData (p_name p)) as [|m ms] eqn:Hm.
  - destruct (matchTenderItem_semantic_inv sorData (TenderProcessor.initial_of uuid p)
                item t t' Hm Hrun) as (v & Hcall & ->).
    split; [now destruct (resolves sorData v)|].
    rewrite (service_trace _ _ _ _ _ _ Hcall).
    unfold summary, match_request. destruct sorData; cbn [map].
    + rewrite app_nil_r. now destruct t.
    + reflexivity.
  - destruct (matchTenderItem_exact sorData (TenderProcessor.initial_of uuid p) t)
      as (e & rest & _ & Hrun').
    + cbn [TenderProcessor.initial_of name]. rewrite Hm. discriminate.
    + rewrite Hrun' in Hrun. injection Hrun as <- <-. split; [reflexivity|].
      destruct sorData; cbn [map]; rewrite app_nil_r; now destruct t.
Qed.

Lemma unnamed_records_cons (sorData : list SORItem) (p : ParsedItem) (ps : list ParsedItem) :
  unnamed_records sorData (p :: ps)
  = (unnamed_records sorData [p] ++ unnamed_records sorData ps)%list.
Proof.
  unfold unnamed_records. cbn [filter].
  now destruct (TenderProcessor.exactMatches sorData (p_name p)).
Qed.

Lemma matching_loop_trace (sorData : list SORItem) (parsed : list ParsedItem)
    (items : list TenderItem) :
  Forall2 (fun p i => exists uuid, i = TenderProcessor.initial_of uuid p) parsed items ->
  forall t out t',
    for_push (TenderProcessor.matchTenderItem sorData) items t = (Return out, t') ->
    map id out = map id items
    /\ t' = mkTrace (remote_calls t
                     ++ match sorData with
                        | [] => []
                        | _ :: _ => map (match_request sorData)
                                        (unnamed_records sorData parsed)
                        end)
                    (uuids_drawn t) (dialogs t).
Proof.
  induction 1 as [|p i parsed items (uuid & ->) _ IH]; intros t out t' Hrun.
  - injection Hrun as <- <-. split; [reflexivity|].
    destruct sorData; cbn [map unnamed_records filter]; rewrite app_nil_r; now destruct t.
  - cbn [for_push] in Hrun.
    apply bind_Return in Hrun as (o & t1 & Hstep & Hrun).
    apply bind_Return in Hrun as (os & t2 & Hloop & Hrun).
    injection Hrun as <- <-.
    destruct (matchTenderItem_trace _ _ _ _ _ _ Hstep) as [Hid ->].
    destruct (IH _ _ _ Hloop) as [Hids ->].
    split; [cbn [map]; now rewrite Hid, Hids|].
    cbn [remote_calls uuids_drawn dialogs].
    rewrite (unnamed_records_cons sorData p parsed).
    destruct sorData; [now rewrite !app_nil_r|].
    now rewrite map_app, app_assoc.
Qed.

(** The effects of a completed pass. *)
Lemma handleProcess_effects (sorData : list SORItem) (parsed : list ParsedItem)
    (t t' : Trace) (out : list TenderItem) :
  TenderProcessor.handleProcess sorData parsed t = (Return out, t') ->
  map id out = map randomUUID_value (seq (uuids_drawn t) (List.length parsed))
  /\ t' = mkTrace (remote_calls t
                   ++ match sorData with
                      | [] => []
                      | _ :: _ => map (match_request sorData)
                                      (unnamed_records sorData parsed)
                      end)
                  (List.length parsed + uuids_drawn t) (dialogs t).
Proof.
  unfold TenderProcessor.handleProcess. intros Hrun.
  apply bind_Return in Hrun as (items & t1 & Hinit & Hloop).
  destruct (initial_items_run parsed t) as (items' & Hinit' & Hall & Hids).
  rewrite Hinit' in Hinit. injection Hinit as <- <-.
  destruct (matching_loop_trace sorData parsed items' Hall _ _ _ Hloop) as [Hout ->].
  split; [now rewrite Hout|reflexivity].
Qed.

Lemma matchTenderItem_empty_catalog (tenderItem : TenderItem) (t : Trace) :
  TenderProcessor.matchTenderItem [] tenderItem t
  = (Return (with_status tenderItem no_match), t).
Proof. reflexivity. Qed.
End PassEffects.

(** X11.  The items of a completed pass of the tender processor carry, in
    order, the identifiers drawn during the pass, one per record; so they
    are pairwise different whenever the identifiers drawn are, which is what
    the accept and remove buttons rely on. *)
Theorem handleProcess_identifiers {W : World} {R : Runtime}
    (sorData : list SORItem) (parsed : list ParsedItem) (t t' : Trace)
    (out : list TenderItem) :
  TenderProcessor.handleProcess sorData parsed t = (Return out, t') ->
  map id out = map randomUUID_value (seq (uuids_drawn t) (List.length parsed))
  /\ uuids_drawn t' = (List.length parsed + uuids_drawn t)%nat
  /\ (NoDup (map randomUUID_value (seq (uuids_drawn t) (List.length parsed))) ->
      NoDup (map id out)).
Proof.
  intros Hrun. destruct (handleProcess_effects _ _ _ _ _ Hrun) as [Hids ->].
  split; [exact Hids|]. split; [reflexivity|]. now rewrite Hids.
Qed.

Lemma handleProcess_identifiers_witness :
  let W := Reference.scripted_world true [Rejects] true in
  let R := Reference.reference_runtime in
  let parsed := [ mkParsed "10HP PUMP" None "supply" None;
                  mkParsed "valve" (Some 2) "y" None ] in
  let out := [ mkTender "uuid-0" "10HP PUMP" 1 "supply" None
                        (Some Reference.pump_cheap) review;
               mkTender "uuid-1" "valve" 2 "y" None None no_match ] in
  let final := mkTrace [match_request Reference.catalog (mkParsed "valve" (Some 2) "y" None)]
                       2 [] in
  TenderProcessor.handleProcess Reference.catalog parsed Reference.start = (Return out, final)
  /\ NoDup (map randomUUID_value (seq 0 2))
  /\ NoDup (map id out).
Proof.
  intros W R parsed out final.
  assert (Hrun : TenderProcessor.handleProcess Reference.catalog parsed Reference.start
                 = (Return out, final)) by reflexivity.
  assert (Hnd : NoDup (map randomUUID_value (seq 0 2))).
  { vm_compute. constructor; [intros [H|[]]; discriminate H|].
    constructor; [intros []|constructor]. }
  split; [exact Hrun|]. split; [exact Hnd|].
  exact (proj2 (proj2 (handleProcess_identifiers Reference.catalog parsed Reference.start
                         final out Hrun)) Hnd).
Defined.

Lemma unnamed_records_none {R : Runtime} (sorData : list SORItem)
    (parsed : list ParsedItem) :
  (forall p, In p parsed -> TenderProcessor.exactMatches sorData (p_name p) <> []) ->
  unnamed_records sorData parsed = [].
Proof.
  unfold unnamed_records. induction parsed as [|p ps IH]; intros Hall; [reflexivity|].
  cbn [filter]. pose proof (Hall p (or_introl eq_refl)) as Hp.
  destruct (TenderProcessor.exactMatches sorData (p_name p)); [contradiction|].
  apply IH. intros q Hq. apply Hall. now right.
Qed.

(** X12.  A completed pass of the tender processor over a catalog that is
    not empty has issued one request per record without an entry of its
    name, in the order of the records and with the record's name, its
    requested scope and the summary of the catalog, and no request for the
    records with such an entry; it has raised no dialog. *)
Theorem handleProcess_requests {W : World} {R : Runtime}
    (sorData : list SORItem) (parsed : list ParsedItem) (t t' : Trace)
    (out : list TenderItem) :
  sorData <> [] ->
  TenderProcessor.handleProcess sorData parsed t = (Return out, t') ->
  remote_calls t'
  = (remote_calls t ++ map (match_request sorData) (unnamed_records sorData parsed))%list
  /\ dialogs t' = dialogs t
  /\ (List.length (remote_calls t') <= List.length (remote_calls t) + List.length parsed)%nat
  /\ ((forall p, In p parsed -> TenderProcessor.exactMatches sorData (p_name p) <> []) ->
      remote_calls t' = remote_calls t).
Proof.
  intros Hne Hrun. destruct (handleProcess_effects _ _ _ _ _ Hrun) as [_ ->].
  destruct sorData as [|d sorData]; [contradiction|].
  cbn [remote_calls dialogs].
  split; [reflexivity|]. split; [reflexivity|]. split.
  - rewrite length_app, length_map. unfold unnamed_records.
    pose proof (filter_length_le
                  (fun p => match TenderProcessor.exactMatches (d :: sorData) (p_name p) with
                            | [] => true
                            | _ :: _ => false
                            end) parsed). lia.
  - intros Hall.
    rewrite (unnamed_records_none _ _ Hall). apply app_nil_r.
Qed.

Lemma handleProcess_requests_witness :
  let W := Reference.scripted_world true
             [Responds (Some (Reference.matchedId_text "s3")); Rejects] true in
  let R := Reference.reference_runtime in
  let cu := mkParsed "cu cable" (Some 3) "x" None in
  let valve := mkParsed "valve" (Some 0) "y" None in
  let parsed := [mkParsed "10HP PUMP" None " supply ONLY " (Some 100); cu; valve] in
  Reference.catalog <> []
  /\ (exists out t',
        TenderProcessor.handleProcess Reference.catalog parsed Reference.start
        = (Return out, t')
        /\ remote_calls t'
           = [match_request Reference.catalog cu; match_request Reference.catalog valve]).
Proof.
  intros W R cu valve parsed.
  assert (Hne : Reference.catalog <> []) by discriminate.
  split; [exact Hne|].
  destruct (TenderProcessor.handleProcess Reference.catalog parsed Reference.start)
    as [[out|e] t'] eqn:Hrun; [|discriminate Hrun].
  exists out, t'. split; [reflexivity|].
  rewrite (proj1 (handleProcess_requests Reference.catalog parsed Reference.start t' out
                    Hne Hrun)).
  reflexivity.
Defined.

(** X14.  In a completed pass of the tender processor, at every position:
    an item with status [matched] has an entry of least rate among the
    entries of the record's name whose scope of work, lower-cased and
    trimmed, is the requested scope; an item with status [no_match] belongs
    to a record without an entry of its name; a record with entries of its
    name always gets one of least rate among them; and every matched rate is
    an entry of the catalog. *)
Theorem handleProcess_statuses {W : World} {R : Runtime}
    (sorData : list SORItem) (parsed : list ParsedItem) (t t' : Trace)
    (out : list TenderItem) :
  TenderProcessor.handleProcess sorData parsed t = (Return out, t') ->
  Forall2 (fun p item =>
             (status item = matched ->
              exists e, matchedRate item = Some e
                        /\ cheapest_match sorData (p_name p) e
                        /\ trim (toLowerCase (scopeOfWork e))
                           = trim (toLowerCase (p_requestedScope p)))
             /\ (status item = no_match ->
                 TenderProcessor.exactMatches sorData (p_name p) = []
                 /\ matchedRate item = None)
             /\ (TenderProcessor.exactMatches sorData (p_name p) <> [] ->
                 exists e, matchedRate item = Some e /\ cheapest_match sorData (p_name p) e)
             /\ (forall e, matchedRate item = Some e -> In e sorData))
          parsed out.
Proof.
  intros Hrun. eapply Forall2_impl; [|exact (handleProcess_items _ _ _ _ _ Hrun)].
  intros p item (uuid & t1 & t2 & Hbody).
  destruct (TenderProcessor.exactMatches sorData (p_name p)) as [|m ms] eqn:Hm.
  - destruct (matchTenderItem_semantic_inv sorData (TenderProcessor.initial_of uuid p)
                item t1 t2 Hm Hbody) as (v & _ & ->).
    destruct (resolves sorData v) as [b|] eqn:Hres;
      cbn [with_match with_status TenderProcessor.initial_of status matchedRate].
    + repeat split; try discriminate; try contradiction.
      intros e He. injection He as <-. unfold resolves in Hres.
      now apply find_some in Hres.
    + repeat split; try discriminate; try contradiction.
  - destruct (matchTenderItem_exact sorData (TenderProcessor.initial_of uuid p) t1)
      as (e & rest & Hsort & Hbody').
    { cbn [TenderProcessor.initial_of name]. rewrite Hm. discriminate. }
    rewrite Hbody' in Hbody. injection Hbody as <- _.
    cbn [TenderProcessor.initial_of name] in Hsort.
    destruct (Array_sort_head rate _ _ _ Hsort) as [Hin Hmin].
    assert (Hcheap : cheapest_match sorData (p_name p) e) by (split; assumption).
    cbn [with_match status matchedRate].
    split; [|split; [|split]].
    + intros Hst. exists e. split; [reflexivity|]. split; [exact Hcheap|].
      unfold TenderProcessor.isScopeIdentical in Hst.
      cbn [TenderProcessor.initial_of requestedScope] in Hst.
      destruct (String.eqb (trim (toLowerCase (scopeOfWork e)))
                           (trim (toLowerCase (p_requestedScope p)))) eqn:Heq;
        [now apply String.eqb_eq | discriminate].
    + intros Hst. exfalso.
      destruct (TenderProcessor.isScopeIdentical e (TenderProcessor.initial_of uuid p));
        discriminate.
    + intros _. exists e. split; [reflexivity | exact Hcheap].
    + intros e' He'. injection He' as <-. rewrite Hm in Hin.
      rewrite <- Hm in Hin. now apply exactMatches_In in Hin.
Qed.

Lemma handleProcess_statuses_witness :
  let W := Reference.scripted_world true [] true in
  let R := Reference.reference_runtime in
  let parsed := [mkParsed "10HP PUMP" None " supply ONLY " (Some 100)] in
  let out := [mkTender "uuid-0" "10HP PUMP" 1 " supply ONLY " (Some 100)
                       (Some Reference.pump_cheap) matched] in
  TenderProcessor.handleProcess Reference.catalog parsed Reference.start
  = (Return out, mkTrace [] 1 [])
  /\ exists e, Some Reference.pump_cheap = Some e
               /\ cheapest_match Reference.catalog "10HP PUMP" e.
Proof.
  intros W R parsed out.
  assert (Hrun : TenderProcessor.handleProcess Reference.catalog parsed Reference.start
                 = (Return out, mkTrace [] 1 [])) by reflexivity.
  split; [exact Hrun|].
  pose proof (handleProcess_statuses Reference.catalog parsed Reference.start _ out Hrun)
    as Hall.
  inversion Hall as [|? ? ? ? (Hmatched & _) _]; subst.
  destruct (Hmatched eq_refl) as (e & He & Hcheap & _).
  exists e. split; [exact He | exact Hcheap].
Defined.

(** ** Ties between cheapest entries *)

Lemma find_ext_in {A} (f g : A -> bool) (l : list A) :
  (forall x, In x l -> f x = g x) -> find f l = find g l.
Proof.
  induction l as [|x l IH]; intros H; [reflexivity|]. simpl.
  rewrite (H x (or_introl eq_refl)). destruct (g x); [reflexivity|].
  apply IH. intros y Hy. apply H. now right.
Qed.

Lemma no_cheaper_iff (entries : list SORItem) (e : SORItem) :
  forallb (fun m => if Qlt_le_dec (rate m) (rate e) then false else true) entries = true
  <-> forall m, In m entries -> rate e <= rate m.
Proof.
  rewrite forallb_forall. split; intros H m Hm; specialize (H m Hm).
  - destruct (Qlt_le_dec (rate m) (rate e)); [discriminate | assumption].
  - destruct (Qlt_le_dec (rate m) (rate e)); [lra | reflexivity].
Qed.

(** The first element of the array sorted by rate is the first of the
    cheapest entries. *)
Lemma Array_sort_earliest (entries : list SORItem) :
  hd_error (Array_sort (fun a b => rate a - rate b) entries) = earliest_cheapest entries.
Proof.
  unfold earliest_cheapest.
  induction entries as [|x l IH]; [reflexivity|].
  cbn [Array_sort find].
  destruct (Array_sort (fun a b => rate a - rate b) l) as [|y rest] eqn:Hsort.
  - assert (l = []) as ->.
    { pose proof (Array_sort_perm rate l) as Hp. rewrite Hsort in Hp.
      now apply Permutation_nil in Hp. }
    cbn [sort_insert hd_error forallb].
    destruct (Qlt_le_dec (rate x) (rate x)); [lra | reflexivity].
  - destruct (Array_sort_head rate _ _ _ Hsort) as [Hy Hmin].
    cbn [sort_insert]. destruct (Qlt_le_dec 0 (rate x - rate y)) as [Hlt|Hle].
    + cbn [hd_error].
      assert (Hx : forallb (fun m => if Qlt_le_dec (rate m) (rate x) then false else true)
                           (x :: l) = false).
      { apply not_true_is_false. rewrite no_cheaper_iff. intros H.
        specialize (H y (or_intror Hy)). lra. }
      rewrite Hx. cbn [hd_error] in IH. rewrite IH.
      apply find_ext_in. intros e He. cbn [forallb].
      destruct (forallb (fun m => if Qlt_le_dec (rate m) (rate e) then false else true) l)
        eqn:Hall; [|now rewrite andb_false_r].
      rewrite andb_true_r.
      pose proof (proj1 (no_cheaper_iff l e) Hall y Hy) as Hey.
      destruct (Qlt_le_dec (rate x) (rate e)); [lra | reflexivity].
    + cbn [hd_error].
      assert (Hx : forallb (fun m => if Qlt_le_dec (rate m) (rate x) then false else true)
                           (x :: l) = true).
      { apply no_cheaper_iff. intros m [<-|Hm]; [lra|]. specialize (Hmin m Hm). lra. }
      now rewrite Hx.
Qed.

(** X15.  Where several entries of the record's name share the least rate,
    the pass of the tender processor takes the first of them in catalog
    order: the matched rate of the record is the first entry, among the
    entries of its name, that none of them undercuts. *)
Theorem handleProcess_takes_earliest_cheapest {W : World} {R : Runtime}
    (sorData : list SORItem) (p : ParsedItem) :
  TenderProcessor.exactMatches sorData (p_name p) <> [] ->
  exists e,
    earliest_cheapest (TenderProcessor.exactMatches sorData (p_name p)) = Some e
    /\ (forall uuid t, exists st,
          TenderProcessor.matchTenderItem sorData (TenderProcessor.initial_of uuid p) t
          = (Return (with_match (TenderProcessor.initial_of uuid p) st e), t))
    /\ (forall parsed n t out t',
          nth_error parsed n = Some p ->
          TenderProcessor.handleProcess sorData parsed t = (Return out, t') ->
          exists item, nth_error out n = Some item /\ matchedRate item = Some e).
Proof.
  intros Hne.
  destruct (Array_sort_nonempty rate _ Hne) as (e & rest & Hsort).
  exists e.
  assert (Hfirst : earliest_cheapest (TenderProcessor.exactMatches sorData (p_name p))
                   = Some e)
    by (now rewrite <- Array_sort_earliest, Hsort).
  assert (Hstep : forall uuid t, exists st,
             TenderProcessor.matchTenderItem sorData (TenderProcessor.initial_of uuid p) t
             = (Return (with_match (TenderProcessor.initial_of uuid p) st e), t)).
  { intros uuid t.
    destruct (matchTenderItem_exact sorData (TenderProcessor.initial_of uuid p) t)
      as (e' & rest' & Hsort' & Hrun); [exact Hne|].
    cbn [TenderProcessor.initial_of name] in Hsort'. rewrite Hsort in Hsort'.
    injection Hsort' as <- _. eauto. }
  split; [exact Hfirst|]. split; [exact Hstep|].
  intros parsed n t out t' Hn Hrun.
  destruct (Forall2_at _ _ _ (handleProcess_items _ _ _ _ _ Hrun) n p Hn)
    as (item & Hitem & uuid & t1 & t2 & Hbody).
  destruct (Hstep uuid t1) as (st & Hbody').
  rewrite Hbody' in Hbody. injection Hbody as <- _.
  eexists. split; [exact Hitem | reflexivity].
Qed.

Lemma handleProcess_takes_earliest_cheapest_witness :
  let W := Reference.scripted_world true [] true in
  let R := Reference.reference_runtime in
  let first := mkSOR "a1" "Elbow" "nos" 40 "Supply" "DSR" 1 in
  let dear := mkSOR "a2" "elbow" "nos" 55 "Supply" "PWD" 2 in
  let second := mkSOR "a3" "ELBOW" "nos" 40 "Supply" "CPWD" 3 in
  let p := mkParsed "elbow" None "supply" None in
  TenderProcessor.exactMatches [dear; first; second] (p_name p) <> []
  /\ earliest_cheapest (TenderProcessor.exactMatches [dear; first; second] (p_name p))
     = Some first
  /\ exists e,
       earliest_cheapest (TenderProcessor.exactMatches [dear; first; second] (p_name p))
       = Some e
       /\ exists st,
            TenderProcessor.matchTenderItem [dear; first; second]
              (TenderProcessor.initial_of "uuid-0" p) Reference.start
            = (Return (with_match (TenderProcessor.initial_of "uuid-0" p) st e),
               Reference.start).
Proof.
  intros W R first dear second p.
  assert (Hne : TenderProcessor.exactMatches [dear; first; second] (p_name p) <> [])
    by discriminate.
  split; [exact Hne|]. split; [reflexivity|].
  destruct (handleProcess_takes_earliest_cheapest [dear; first; second] p Hne)
    as (e & Hfirst & Hstep & _).
  exists e. split; [exact Hfirst | exact (Hstep "uuid-0" Reference.start)].
Defined.

(** ** The pass of the application file *)

(** On records of the declared shape the loop of the pass runs to its end;
    the items, the requests and the identifiers drawn are these. *)
Lemma handleProcessTender_run {W : World} {R : Runtime}
    (sorData : list SORItem) (parsed : list ParsedItem) (t : Trace) :
  exists out t',
    App.handleProcessTender sorData parsed t = (Return out, t')
    /\ Forall2 (fun p item =>
                  name item = p_name p
                  /\ requestedScope item = p_requestedScope p
                  /\ estimatedRate item = p_estimatedRate p
                  /\ quantity item = number_or (p_quantity p) 1
                  /\ ~ quantity item == 0
                  /\ ((status item = matched
                       /\ exists e, matchedRate item = Some e /\ In e sorData)
                      \/ (status item = no_match /\ matchedRate item = None)))
               parsed out
    /\ remote_calls t'
       = (remote_calls t
          ++ match sorData with
             | [] => []
             | _ :: _ => if client_constructs
                         then map (match_request sorData) parsed
                         else []
             end)%list
    /\ uuids_drawn t' = (List.length parsed + uuids_drawn t)%nat
    /\ dialogs t' = dialogs t.
Proof.
  unfold App.handleProcessTender. revert t.
  induction parsed as [|p parsed IH]; intros t.
  - exists [], t. split; [reflexivity|]. split; [constructor|].
    split; [|split; reflexivity].
    destruct sorData; [|destruct client_constructs]; now rewrite app_nil_r.
  - destruct (app_service_returns (p_name p) (p_requestedScope p) (summary sorData) t)
      as (v & t1 & Hcall).
    pose proof (processParsed_run sorData p t t1 v Hcall) as Hstep.
    pose proof (app_service_trace _ _ _ _ _ _ Hcall) as Ht1.
    destruct (IH (mkTrace (remote_calls t1) (S (uuids_drawn t1)) (dialogs t1)))
      as (out & t' & Hloop & Hall & Hcalls & Huuids & Hdialogs).
    eexists (_ :: out), t'. cbn [for_push]. unfold bind at 1. rewrite Hstep.
    unfold bind at 1. rewrite Hloop.
    split; [reflexivity|]. split; [|split; [|split]].
    + constructor; [|exact Hall].
      cbn [name requestedScope estimatedRate quantity status matchedRate].
      repeat split.
      * unfold number_or, truthy_number.
        destruct (p_quantity p) as [q|]; [|discriminate].
        destruct (Qeq_bool q 0) eqn:Hq; simpl; [discriminate|].
        intros H0. apply Qeq_bool_iff in H0. congruence.
      * destruct (resolves sorData v) as [e|] eqn:Hres; [left | right; now split].
        split; [reflexivity|]. exists e. split; [reflexivity|].
        unfold resolves in Hres. now apply find_some in Hres.
    + rewrite Hcalls. cbn [remote_calls]. rewrite Ht1. unfold summary, match_request.
      destruct sorData as [|d sorData]; cbn [map]; [reflexivity|].
      destruct client_constructs; cbn [remote_calls map].
      * now rewrite <- app_assoc.
      * reflexivity.
    + rewrite Huuids. cbn [uuids_drawn List.length]. rewrite Ht1.
      destruct (summary sorData); [lia|]. destruct client_constructs; cbn [uuids_drawn]; lia.
    + rewrite Hdialogs. cbn [dialogs]. rewrite Ht1.
      destruct (summary sorData); [reflexivity|]. now destruct client_constructs.
Qed.

(** X16.  A completed pass of the application file, over a catalog that is
    not empty and with a client that can be constructed.  Its items stand
    one for each record, in order, with the record's name, requested scope
    and estimated rate and a quantity that is the record's, or one when the
    record has none or zero, so never zero; an item has status [matched] and
    an entry of the catalog as matched rate, or status [no_match] and no
    matched rate.  The pass has issued one request per record, in order,
    whatever the names, has drawn one identifier per record and has opened
    no dialog. *)
Theorem handleProcessTender_spec {W : World} {R : Runtime}
    (sorData : list SORItem) (parsed : list ParsedItem) (t t' : Trace)
    (out : list TenderItem) :
  client_constructs = true ->
  sorData <> [] ->
  App.handleProcessTender sorData parsed t = (Return out, t') ->
  Forall2 (fun p item =>
             name item = p_name p
             /\ requestedScope item = p_requestedScope p
             /\ estimatedRate item = p_estimatedRate p
             /\ quantity item = number_or (p_quantity p) 1
             /\ ~ quantity item == 0
             /\ ((status item = matched
                  /\ exists e, matchedRate item = Some e /\ In e sorData)
                 \/ (status item = no_match /\ matchedRate item = None)))
          parsed out
  /\ remote_calls t' = (remote_calls t ++ map (match_request sorData) parsed)%list
  /\ uuids_drawn t' = (List.length parsed + uuids_drawn t)%nat
  /\ dialogs t' = dialogs t.
Proof.
  intros Hc Hne Hrun.
  destruct (handleProcessTender_run sorData parsed t)
    as (out0 & t0 & Hrun0 & Hall & Hcalls & Huuids & Hdialogs).
  rewrite Hrun in Hrun0. injection Hrun0 as <- <-.
  split; [exact Hall|]. split; [|split; assumption].
  rewrite Hcalls, Hc. now destruct sorData.
Qed.

Lemma handleProcessTender_spec_witness :
  let W := Reference.scripted_world true
             [Responds (Some (Reference.matchedId_text "s3")); Rejects] true in
  let R := Reference.reference_runtime in
  let parsed := [mkParsed "cu cable" (Some 0) "x" None;
                 mkParsed "valve" (Some 2) "y" (Some 100)] in
  client_constructs = true
  /\ Reference.catalog <> []
  /\ exists out t',
       App.handleProcessTender Reference.catalog parsed Reference.start = (Return out, t')
       /\ remote_calls t' = map (match_request Reference.catalog) parsed
       /\ uuids_drawn t' = 2%nat.
Proof.
  intros W R parsed.
  assert (Hc : client_constructs = true) by reflexivity.
  assert (Hne : Reference.catalog <> []) by discriminate.
  split; [exact Hc|]. split; [exact Hne|].
  destruct (App.handleProcessTender Reference.catalog parsed Reference.start)
    as [[out|e] t'] eqn:Hrun; [|discriminate Hrun].
  exists out, t'. split; [reflexivity|].
  destruct (handleProcessTender_spec Reference.catalog parsed Reference.start t' out
              Hc Hne Hrun) as (_ & Hcalls & Huuids & _).
  split; [exact Hcalls | exact Huuids].
Defined.

(** ** The extraction calls *)

Ltac run_extraction :=
  unfold GeminiExtraction.parseBulkItems, GeminiExtraction.parseRatesFromText,
         AppExtraction.parseBulkItems, AppExtraction.parseRatesFromText,
         GeminiService.getClient, AppService.client, new_GoogleGenAI,
         bind, try_catch, generateContent, JSON_parse_js, ret, throw.

(** X17.  The two extraction calls, in the service module and in the
    application file: when the request is rejected or the text of the
    response does not parse they return the empty array; the text of a
    response that parses is returned as parsed, whatever value it is; they
    issue their request for every text, the empty one included.  Those of
    the application file always return, and return the empty array without
    a request when the client cannot be constructed; those of the service
    module can only throw what the construction of the client throws. *)
Theorem extraction_calls_spec {W : World} {R : Runtime} (text : string) (t : Trace) :
  let issued := fun req => mkTrace (remote_calls t ++ [req]) (uuids_drawn t) (dialogs t) in
  let outcome := fun req => generateContent_outcome (List.length (remote_calls t)) req in
  let result := fun req =>
    match outcome req with
    | Rejects => JArr []
    | Responds response =>
        match JSON_parse (text_or response "[]") with
        | Some v => v
        | None => JArr []
        end
    end in
  (client_constructs = true ->
   GeminiExtraction.parseBulkItems text t
   = (Return (result (bulk_items_request text)), issued (bulk_items_request text))
   /\ GeminiExtraction.parseRatesFromText text t
      = (Return (result (rates_request text)), issued (rates_request text))
   /\ AppExtraction.parseBulkItems text t
      = (Return (result (bulk_items_request text)), issued (bulk_items_request text))
   /\ AppExtraction.parseRatesFromText text t
      = (Return (result (rates_request text)), issued (rates_request text)))
  /\ (client_constructs = false ->
      GeminiExtraction.parseBulkItems text t = (Throw ClientError, t)
      /\ GeminiExtraction.parseRatesFromText text t = (Throw ClientError, t)
      /\ AppExtraction.parseBulkItems text t = (Return (JArr []), t)
      /\ AppExtraction.parseRatesFromText text t = (Return (JArr []), t)).
Proof.
  cbv zeta. split; intros Hc; run_extraction; rewrite Hc.
  - repeat split.
    + destruct (generateContent_outcome _ (bulk_items_request text)) as [|response];
        [reflexivity|].
      now destruct (JSON_parse (text_or response "[]")).
    + destruct (generateContent_outcome _ (rates_request text)) as [|response];
        [reflexivity|].
      now destruct (JSON_parse (text_or response "[]")).
    + destruct (generateContent_outcome _ (bulk_items_request text)) as [|response];
        [reflexivity|].
      now destruct (JSON_parse (text_or response "[]")).
    + destruct (generateContent_outcome _ (rates_request text)) as [|response];
        [reflexivity|].
      now destruct (JSON_parse (text_or response "[]")).
  - repeat split.
Qed.

Lemma extraction_calls_spec_witness :
  let W := Reference.scripted_world true [Responds (Some "not json")] true in
  let R := Reference.reference_runtime in
  client_constructs = true
  /\ GeminiExtraction.parseBulkItems "2 pumps" Reference.start
     = (Return (JArr []), mkTrace [bulk_items_request "2 pumps"] 0 []).
Proof.
  intros W R.
  assert (Hc : client_constructs = true) by reflexivity.
  split; [exact Hc|].
  destruct (proj1 (extraction_calls_spec "2 pumps" Reference.start) Hc) as [H _].
  exact H.
Defined.

(** X18.  [handleScrape] of the rate form, in the component and in the
    application file: on a text that trims to nothing it changes nothing and
    issues no request; on any other text the form is left not processing,
    with its text as it was, and this also holds in the component when the
    extraction throws, in which case the preview is kept; in the
    application file the handler never throws. *)
Theorem handleScrape_spec {W : World} {R : Runtime} {K : Casts}
    (st : FormState) (t : Trace) :
  (trim (bulkText st) = EmptyString ->
   RateForm_handleScrape st t = (st, (Return tt, t))
   /\ App_handleScrape st t = (st, (Return tt, t)))
  /\ (trim (bulkText st) <> EmptyString ->
      isProcessing (fst (RateForm_handleScrape st t)) = false
      /\ bulkText (fst (RateForm_handleScrape st t)) = bulkText st
      /\ (forall e t', snd (RateForm_handleScrape st t) = (Throw e, t') ->
            previewItems (fst (RateForm_handleScrape st t)) = previewItems st
            /\ e = ClientError /\ t' = t)
      /\ isProcessing (fst (App_handleScrape st t)) = false
      /\ bulkText (fst (App_handleScrape st t)) = bulkText st
      /\ exists t', snd (App_handleScrape st t) = (Return tt, t')).
Proof.
  unfold RateForm_handleScrape, App_handleScrape. split.
  - intros ->. split; reflexivity.
  - intros Hne. apply String.eqb_neq in Hne. rewrite Hne.
    run_extraction.
    destruct client_constructs.
    + destruct (generateContent_outcome _ (rates_request (bulkText st))) as [|response];
        [|destruct (JSON_parse (text_or response "[]"))];
        cbn [fst snd isProcessing bulkText previewItems];
        repeat split; try discriminate; eauto.
    + cbn [fst snd isProcessing bulkText previewItems].
      repeat split; try (now injection H as <- <-). eauto.
Qed.

Lemma handleScrape_spec_witness :
  let W := Reference.scripted_world false [] true in
  let R := Reference.reference_runtime in
  let K := Build_Casts (fun _ => []) in
  let st := mkForm " 2 pumps " [mkNewRate "Elbow" "nos" 40 "Supply" "DSR"] true in
  trim (bulkText st) <> EmptyString
  /\ RateForm_handleScrape st Reference.start
     = (mkForm " 2 pumps " [mkNewRate "Elbow" "nos" 40 "Supply" "DSR"] false,
        (Throw ClientError, Reference.start))
  /\ isProcessing (fst (RateForm_handleScrape st Reference.start)) = false.
Proof.
  intros W R K st.
  assert (Hne : trim (bulkText st) <> EmptyString) by discriminate.
  split; [exact Hne|]. split; [reflexivity|].
  exact (proj1 (proj2 (handleScrape_spec st Reference.start) Hne)).
Defined.

(** ** The shape of the exported tables *)

(** X20.  Read back as CSV, every export is a table whose rows all have the
    number of fields of its header row: six for the catalog, ten for the
    quotation of the application file, eleven for the quotation of the
    tender processor; and its first row is the header row. *)
Theorem exports_are_rectangular {R : Runtime}
    (sorData : list SORItem) (tenderItems : list TenderItem) :
  (exists header rows,
     read_csv (App.handleExportDatabase sorData) = Some (header :: rows)
     /\ header = [ "Item Name"; "Unit"; "Rate (₹)"; "Scope of Work";
                   "Source Reference"; "Date Added" ]
     /\ List.length rows = List.length sorData
     /\ Forall (fun row => List.length row = 6%nat) (header :: rows))
  /\ (exists header rows,
        read_csv (App.handleExportTender tenderItems) = Some (header :: rows)
        /\ List.length header = 10%nat
        /\ List.length rows = List.length tenderItems
        /\ Forall (fun row => List.length row = 10%nat) (header :: rows))
  /\ (exists header rows,
        read_csv (TenderProcessor.handleExportExcel tenderItems) = Some (header :: rows)
        /\ header = TenderProcessor.export_headers
        /\ List.length rows = List.length tenderItems
        /\ Forall (fun row => List.length row = 11%nat) (header :: rows)).
Proof.
  assert (Hrows : forall (A : Type) (f : A -> list Cell) (xs : list A),
             (forall x, f x <> []) ->
             Forall (fun row : list string => row <> []) (map (map cell_text) (map f xs))).
  { intros A f xs Hf. rewrite map_map. apply Forall_map, Forall_forall.
    intros x _ H. apply (Hf x). now destruct (f x). }
  split; [|split].
  - eexists _, _. unfold App.handleExportDatabase. rewrite App_generateCSV_text.
    split; [apply read_csv_text; [discriminate|];
            constructor; [discriminate | apply Hrows; discriminate]|].
    split; [reflexivity|]. split; [now rewrite !length_map|].
    constructor; [reflexivity|].
    rewrite map_map. apply Forall_map, Forall_forall. now intros i _.
  - eexists _, _. unfold App.handleExportTender. rewrite App_generateCSV_text.
    split; [apply read_csv_text; [discriminate|];
            constructor; [discriminate | apply Hrows; discriminate]|].
    split; [reflexivity|]. split; [now rewrite !length_map|].
    constructor; [reflexivity|].
    rewrite map_map. apply Forall_map, Forall_forall. now intros i _.
  - eexists _, _. unfold TenderProcessor.handleExportExcel.
    rewrite TenderProcessor_generateCSV_text. cbn [map].
    split; [apply read_csv_text; [discriminate|];
            constructor; [discriminate | apply Hrows; discriminate]|].
    split; [rewrite map_map; cbn [cell_text]; now rewrite map_id|].
    split; [now rewrite !length_map|].
    constructor; [now rewrite length_map|].
    rewrite map_map. apply Forall_map, Forall_forall. now intros i _.
Qed.
